(** * Chat API: validation, orchestration and persistence

    A shallow embedding of the chat service:
    - [app/schemas/chat.py]   : the request schemas [ChatCreate] and
      [MessageCreate] (field constraints and the trimming validators);
    - [app/models/chat.py]    : the [chats] and [messages] tables and the
      [Chat.messages] relationship;
    - [app/services/chat_service.py] : [ChatService];
    - [app/routers/chats.py]  : the endpoints;
    - [app/database.py]       : the per-request session of [get_db];
    - [app/main.py]           : the exception handlers.

    Python values are modelled as follows.  An [int] is a [Z].  A [str] is the
    list of its Unicode code points, and [len] counts them.  A
    timestamp is a [Z].  A table is the list of its rows in physical order. *)

From Stdlib Require Import String DecimalString ZArith List Lia Bool.
From Stdlib Require Import Sorting.Permutation Sorting.Sorted.
Import ListNotations.

Local Open Scope Z_scope.

(** ** Python strings *)

(** A Unicode code point. *)
Definition codepoint := Z.

(** A Python [str]. *)
Definition pystr := list codepoint.

(** [len(s)]: the number of code points. *)
Definition len (s : pystr) : Z := Z.of_nat (List.length s).

(** The number of bytes of the UTF-8 encoding of one code point. *)
Definition utf8_width (c : codepoint) : Z :=
  if c <? 128 then 1
  else if c <? 2048 then 2
  else if c <? 65536 then 3
  else 4.

(** [len(s.encode("utf-8"))]. *)
Definition utf8_len (s : pystr) : Z :=
  fold_right (fun c n => utf8_width c + n) 0 s.

(** [str.isspace] on one character: the code points the runtime classifies
    as whitespace (bidirectional class WS, B or S, or category Zs). *)
Definition isspace (c : codepoint) : bool :=
  ((9 <=? c) && (c <=? 13))
  || ((28 <=? c) && (c <=? 32))
  || (c =? 133) || (c =? 160) || (c =? 5760)
  || ((8192 <=? c) && (c <=? 8202))
  || (c =? 8232) || (c =? 8233) || (c =? 8239) || (c =? 8287)
  || (c =? 12288).

(** A surrogate: a code point that is no character by itself. *)
Definition surrogate (c : codepoint) : bool :=
  (55296 <=? c) && (c <=? 57343).

(** A Unicode scalar value: a code point up to U+10FFFF, surrogates apart. *)
Definition scalar_value (c : codepoint) : bool :=
  (0 <=? c) && (c <=? 1114111) && negb (surrogate c).

(** A [str] that is well-formed Unicode: it holds no lone surrogate.  (A
    list with a number beyond U+10FFFF or below 0 denotes no [str].) *)
Definition valid_str (s : pystr) : bool := forallb scalar_value s.

(** [s] holds U+0000. *)
Definition has_nul (s : pystr) : bool := existsb (Z.eqb 0) s.

(** The values of a 32-bit and of a 64-bit integer. *)
Definition int32 (z : Z) : bool :=
  (-2147483648 <=? z) && (z <=? 2147483647).

Definition int64 (z : Z) : bool :=
  (-9223372036854775808 <=? z) && (z <=? 9223372036854775807).

(** [s.lstrip()]: drop the leading whitespace. *)
Fixpoint lstrip (s : pystr) : pystr :=
  match s with
  | [] => []
  | c :: s' => if isspace c then lstrip s' else s
  end.

(** [s.rstrip()]: drop the trailing whitespace. *)
Fixpoint rstrip (s : pystr) : pystr :=
  match s with
  | [] => []
  | c :: s' =>
      match rstrip s' with
      | [] => if isspace c then [] else [c]
      | r => c :: r
      end
  end.

(** [s.strip()]: the left index moves past the leading whitespace, then the
    right index moves back over the trailing whitespace. *)
Definition strip (s : pystr) : pystr := rstrip (lstrip s).

(** [not s] for a string: true on the empty string. *)
Definition is_empty (s : pystr) : bool :=
  match s with [] => true | _ => false end.

(** [not l] for a list: true on the empty list. *)
Definition is_nil {A : Type} (l : list A) : bool :=
  match l with [] => true | _ => false end.

(** The string literal [lit] as a [pystr] (ASCII only). *)
Fixpoint of_string (lit : string) : pystr :=
  match lit with
  | EmptyString => []
  | String a rest => Z.of_nat (Ascii.nat_of_ascii a) :: of_string rest
  end.

(** [str(n)] for an [int]: its decimal representation. *)
Definition str_of_int (n : Z) : string :=
  DecimalString.NilZero.string_of_int (Z.to_int n).

(** ** [app/schemas/chat.py] *)

(** One entry of a validation error list: where the value came from and the
    constraint it broke.  [string_unicode] is the refusal of a [str] that is
    not well-formed Unicode; [string_too_short] and [string_too_long] come
    from the length constraints of [Field], [value_error] from a
    [ValueError] raised in a [field_validator], [greater_than_equal] and
    [less_than_equal] from the bounds of a [Query] parameter. *)
Inductive ErrorType :=
| string_unicode
| string_too_short (min_length : Z)
| string_too_long (max_length : Z)
| value_error (msg : string)
| greater_than_equal (ge : Z)
| less_than_equal (le : Z).

Record ErrorDetails := { loc : string; type : ErrorType }.

(** [Field(..., min_length=lo, max_length=hi)] on a [str] field: the value
    must be well-formed Unicode, and then the constraints are checked on it
    as it was received. *)
Definition Field (min_length max_length : Z) (v : pystr) : ErrorType + pystr :=
  if negb (valid_str v) then inl string_unicode
  else if len v <? min_length then inl (string_too_short min_length)
  else if max_length <? len v then inl (string_too_long max_length)
  else inr v.

Module ChatCreate.

Record t := mk { title : pystr }.

(** [trim_and_validate_title]. *)
Definition trim_and_validate_title (v : pystr) : ErrorType + pystr :=
  let trimmed := strip v in
  if is_empty trimmed then
    inl (value_error "Title cannot be empty or only whitespace")
  else if 200 <? len trimmed then
    inl (value_error "Title cannot exceed 200 characters")
  else inr trimmed.

(** Validation of the [title] field: the [Field] constraints of the
    declaration ([min_length=1], [max_length=200]), then the validator
    registered with [field_validator], which runs in its default mode,
    after the field's own validation. *)
Definition validate_title (raw : pystr) : ErrorType + pystr :=
  match Field 1 200 raw with
  | inl e => inl e
  | inr v => trim_and_validate_title v
  end.

(** [ChatCreate(title=raw)]. *)
Definition model_validate (raw : pystr) : list ErrorDetails + t :=
  match validate_title raw with
  | inl e => inl [ {| loc := "title"; type := e |} ]
  | inr v => inr (mk v)
  end.

End ChatCreate.

Module MessageCreate.

Record t := mk { text : pystr }.

(** [trim_and_validate_text]. *)
Definition trim_and_validate_text (v : pystr) : ErrorType + pystr :=
  let trimmed := strip v in
  if is_empty trimmed then
    inl (value_error "Text cannot be empty or only whitespace")
  else if 5000 <? len trimmed then
    inl (value_error "Text cannot exceed 5000 characters")
  else inr trimmed.

(** Validation of the [text] field ([min_length=1], [max_length=5000]),
    then the validator. *)
Definition validate_text (raw : pystr) : ErrorType + pystr :=
  match Field 1 5000 raw with
  | inl e => inl e
  | inr v => trim_and_validate_text v
  end.

(** [MessageCreate(text=raw)]. *)
Definition model_validate (raw : pystr) : list ErrorDetails + t :=
  match validate_text raw with
  | inl e => inl [ {| loc := "text"; type := e |} ]
  | inr v => inr (mk v)
  end.

End MessageCreate.

(** A value is accepted when its validation returns it. *)
Definition accepted {E A : Type} (r : E + A) : bool :=
  match r with inr _ => true | inl _ => false end.

(** ** [app/models/chat.py] *)

(** A [Message]: the columns of a row of [messages]. *)
Module Message.
Record t := mk { id : Z; chat_id : Z; text : pystr; created_at : Z }.
End Message.

(** A [Chat] object: the columns of a row of [chats] and the [messages]
    relationship collection. *)
Module Chat.
Record t :=
  mk { id : Z; title : pystr; created_at : Z; messages : list Message.t }.
End Chat.

(** A row of the table [chats]. *)
Record chats_row :=
  { chats_id : Z; chats_title : pystr; chats_created_at : Z }.

(** The store: both tables, and the sequences that assign primary keys. *)
Record Database := {
  chats : list chats_row;
  messages : list Message.t;
  chats_id_seq : Z;
  messages_id_seq : Z
}.

(** *** The statements of the store *)

(** [Chat.id == chat_id].  The column is an [Integer]: a parameter that is
    no 32-bit integer equals no key (the driver refuses to send it, see
    [execute_select_Chat]). *)
Definition chat_has_id (chat_id : Z) (r : chats_row) : bool :=
  int32 chat_id && (chats_id r =? chat_id).

(** [Message.chat_id == chat_id]. *)
Definition in_chat (chat_id : Z) (m : Message.t) : bool :=
  Message.chat_id m =? chat_id.

(** [Message.id == id]. *)
Definition message_has_id (id : Z) (m : Message.t) : bool :=
  Message.id m =? id.

(** [SELECT ... FROM chats WHERE chats.id = :chat_id]. *)
Definition select_chats (chat_id : Z) (d : Database) : list chats_row :=
  filter (chat_has_id chat_id) (chats d).

(** [SELECT ... FROM messages WHERE messages.chat_id = :chat_id]. *)
Definition select_messages (chat_id : Z) (d : Database) : list Message.t :=
  filter (in_chat chat_id) (messages d).

(** The engine promises no order among rows with equal [created_at].  Its
    choice is an input of the query: [tie m x] tells whether it puts [m]
    before [x].  Every function gives a listing in descending order, and
    every such listing of rows with distinct keys is given by a function
    ([order_by_any_listing] below). *)
Definition Tie : Type := Message.t -> Message.t -> bool.

(** [m] goes before [x]: it is newer, or as old and the engine says so. *)
Definition before (tie : Tie) (m x : Message.t) : bool :=
  (Message.created_at x <? Message.created_at m)
  || ((Message.created_at x =? Message.created_at m) && tie m x).

(** Insertion of a row in a list that is ordered by [created_at],
    descending. *)
Fixpoint insert_desc (tie : Tie) (m : Message.t) (l : list Message.t)
    : list Message.t :=
  match l with
  | [] => [m]
  | x :: l' => if before tie m x then m :: l else x :: insert_desc tie m l'
  end.

(** [ORDER BY messages.created_at DESC], with the engine's choice among
    equal timestamps. *)
Definition order_by_created_at_desc (tie : Tie) (l : list Message.t)
    : list Message.t :=
  fold_right (insert_desc tie) [] l.

(** [LIMIT :limit OFFSET :offset] on a result: skip, then take. *)
Definition limit_offset {A : Type} (limit offset : Z) (l : list A) : list A :=
  firstn (Z.to_nat limit) (skipn (Z.to_nat offset) l).

(** [DELETE FROM chats WHERE chats.id = :chat_id].  The foreign key of
    [messages.chat_id] is declared [ondelete="CASCADE"]: the rows of
    [messages] that reference a deleted chat go with it. *)
Definition delete_chats (chat_id : Z) (d : Database) : Database :=
  {| chats := filter (fun r => negb (chat_has_id chat_id r)) (chats d);
     messages := filter (fun m => negb (in_chat chat_id m)) (messages d);
     chats_id_seq := chats_id_seq d;
     messages_id_seq := messages_id_seq d |}.

(** [DELETE FROM messages WHERE messages.id = :id]. *)
Definition delete_messages (id : Z) (d : Database) : Database :=
  {| chats := chats d;
     messages := filter (fun m => negb (message_has_id id m)) (messages d);
     chats_id_seq := chats_id_seq d;
     messages_id_seq := messages_id_seq d |}.

(** [INSERT INTO chats (title) VALUES (:title)]: the key comes from the
    sequence, [created_at] from the server default [now()]. *)
Definition insert_chats (title : pystr) (now : Z) (d : Database) : Database :=
  let id := chats_id_seq d + 1 in
  {| chats := chats d
              ++ [ {| chats_id := id; chats_title := title;
                      chats_created_at := now |} ];
     messages := messages d;
     chats_id_seq := id;
     messages_id_seq := messages_id_seq d |}.

(** [INSERT INTO messages (chat_id, text) VALUES (:chat_id, :text)]. *)
Definition insert_messages (chat_id : Z) (text : pystr) (now : Z)
    (d : Database) : Database :=
  let id := messages_id_seq d + 1 in
  {| chats := chats d;
     messages := messages d ++ [ Message.mk id chat_id text now ];
     chats_id_seq := chats_id_seq d;
     messages_id_seq := id |}.

(** The statements a session sends to the store, in the order sent. *)
Inductive Statement :=
| SELECT_chats (chat_id : Z)
| SELECT_messages_IN (chat_id : Z)
| SELECT_messages_page (chat_id limit offset : Z)
| SELECT_messages_by_id (id : Z)
| INSERT_chats (title : pystr)
| INSERT_messages (chat_id : Z) (text : pystr)
| DELETE_chats (chat_id : Z)
| DELETE_messages (id : Z)
| COMMIT
| ROLLBACK.

(** ** [app/exceptions.py] and the exceptions of the libraries *)

Inductive Exception :=
| ChatNotFoundException (chat_id : Z)
| RequestValidationError (errors : list ErrorDetails)
| SQLAlchemyError (name : string).

(** ** [app/database.py]: the session *)

(** An object added to the session and not yet flushed. *)
Inductive Pending :=
| new_Chat (title : pystr)
| new_Message (chat_id : Z) (text : pystr).

(** An [AsyncSession] inside its transaction.  [conn] is the store as the
    transaction sees it; [now] is the transaction's timestamp; [new] holds
    the objects passed to [add]; [deleted] holds the keys of the messages
    the unit of work will delete at the next flush; [log] records the
    statements sent so far. *)
Record Session := {
  conn : Database;
  now : Z;
  new : list Pending;
  deleted : list Z;
  log : list Statement
}.

(** Code that runs against a session and may raise. *)
Definition M (A : Type) : Type := Session -> (Exception + A) * Session.

Definition ret {A : Type} (a : A) : M A := fun s => (inr a, s).

Definition raise {A : Type} (e : Exception) : M A := fun s => (inl e, s).

Definition bind {A B : Type} (m : M A) (k : A -> M B) : M B :=
  fun s =>
    match m s with
    | (inr a, s') => k a s'
    | (inl e, s') => (inl e, s')
    end.

Declare Scope session_scope.
Delimit Scope session_scope with session.
Notation "x <- m ;; k" := (bind m (fun x => k))
  (at level 61, m at next level, right associativity) : session_scope.
Notation "m ;; k" := (bind m (fun _ => k))
  (at level 61, right associativity) : session_scope.
Local Open Scope session_scope.

(** Send a statement: record it and apply its effect on the store. *)
Definition send (st : Statement) (effect : Database -> Database) : M unit :=
  fun s =>
    (inr tt,
     {| conn := effect (conn s); now := now s; new := new s;
        deleted := deleted s; log := log s ++ [st] |}).

(** Read the store as the transaction sees it. *)
Definition read {A : Type} (q : Database -> A) : M A :=
  fun s => (inr (q (conn s)), s).

(** [result.scalar_one_or_none()]. *)
Definition scalar_one_or_none {A : Type} (rows : list A) : M (option A) :=
  match rows with
  | [] => ret None
  | [r] => ret (Some r)
  | _ => raise (SQLAlchemyError "MultipleResultsFound")
  end.

(** [db.execute(select(Chat).where(Chat.id == chat_id))].  The relationship
    [Chat.messages] is declared [lazy="selectin"]: whenever chats are
    loaded, a second statement loads the whole collection of each.  The
    option [selectinload(Chat.messages)] asks for the same loader, so
    [load_messages] changes nothing.  The parameter is sent as a 32-bit
    integer: the driver refuses any other, and the statement is not
    executed. *)
Definition execute_select_Chat (chat_id : Z) (load_messages : bool)
    : M (list Chat.t) :=
  if negb (int32 chat_id) then raise (SQLAlchemyError "DBAPIError")
  else
    send (SELECT_chats chat_id) (fun d => d) ;;
    rows <- read (select_chats chat_id) ;;
    match rows with
    | [] => ret []
    | _ =>
        send (SELECT_messages_IN chat_id) (fun d => d) ;;
        collection <- read (select_messages chat_id) ;;
        ret (map (fun r => Chat.mk (chats_id r) (chats_title r)
                             (chats_created_at r) collection) rows)
    end.

(** [db.execute(select(Message).where(Message.chat_id == chat_id)
    .order_by(desc(Message.created_at)).limit(limit).offset(offset))]
    followed by [result.scalars().all()].  [chat_id] is sent as a 32-bit
    integer, [limit] and [offset] as 64-bit integers: the driver refuses any
    other.  The store refuses a negative [LIMIT] or [OFFSET]. *)
Definition execute_select_Message (tie : Tie) (chat_id limit offset : Z)
    : M (list Message.t) :=
  if negb (int32 chat_id && int64 limit && int64 offset) then
    raise (SQLAlchemyError "DBAPIError")
  else
    send (SELECT_messages_page chat_id limit offset) (fun d => d) ;;
    if (limit <? 0) || (offset <? 0) then raise (SQLAlchemyError "DBAPIError")
    else
      read (fun d =>
              limit_offset limit offset
                (order_by_created_at_desc tie (select_messages chat_id d))).

(** [chat.messages = value].  The relationship is declared
    [cascade="all, delete-orphan"]: a message taken out of the collection is
    an orphan, and the unit of work deletes it at the next flush.  (A message
    put in the collection gets [chat_id = chat.id]; the values assigned here
    were selected by that [chat_id], so nothing changes for them.) *)
Definition set_messages (chat : Chat.t) (value : list Message.t) : M Chat.t :=
  let removed :=
    filter (fun m => negb (existsb (message_has_id (Message.id m)) value))
           (Chat.messages chat) in
  fun s =>
    (inr (Chat.mk (Chat.id chat) (Chat.title chat) (Chat.created_at chat)
            value),
     {| conn := conn s; now := now s; new := new s;
        deleted := deleted s ++ map Message.id removed; log := log s |}).

(** [db.add(obj)]. *)
Definition add (obj : Pending) : M unit :=
  fun s =>
    (inr tt,
     {| conn := conn s; now := now s; new := new s ++ [obj];
        deleted := deleted s; log := log s |}).

(** A sequence value that was handed out stays consumed when the statement
    then fails. *)
Definition nextval_messages (d : Database) : Database :=
  {| chats := chats d; messages := messages d;
     chats_id_seq := chats_id_seq d;
     messages_id_seq := messages_id_seq d + 1 |}.

(** The [INSERT] of one pending object; returns the key the store assigned.
    The store refuses a string with U+0000, a [title] beyond its
    [String(200)] and a [text] beyond its [String(5000)] before it evaluates
    the row; the key is the next value of the sequence, a 32-bit integer;
    [chat_id] must reference a row of [chats], which is checked on the row
    formed. *)
Definition flush_new (obj : Pending) : M Z :=
  match obj with
  | new_Chat title =>
      seq <- read chats_id_seq ;;
      if has_nul title || (200 <? len title) || negb (int32 (seq + 1)) then
        send (INSERT_chats title) (fun d => d) ;;
        raise (SQLAlchemyError "DBAPIError")
      else
        t <- (fun s => (inr (now s), s)) ;;
        send (INSERT_chats title) (insert_chats title t) ;;
        read chats_id_seq
  | new_Message chat_id text =>
      seq <- read messages_id_seq ;;
      parents <- read (select_chats chat_id) ;;
      if has_nul text || (5000 <? len text) || negb (int32 (seq + 1)) then
        send (INSERT_messages chat_id text) (fun d => d) ;;
        raise (SQLAlchemyError "DBAPIError")
      else if is_nil parents then
        send (INSERT_messages chat_id text) nextval_messages ;;
        raise (SQLAlchemyError "IntegrityError")
      else
        t <- (fun s => (inr (now s), s)) ;;
        send (INSERT_messages chat_id text) (insert_messages chat_id text t) ;;
        read messages_id_seq
  end.

Fixpoint flush_all_new (objs : list Pending) : M (list Z) :=
  match objs with
  | [] => ret []
  | obj :: objs' =>
      key <- flush_new obj ;;
      keys <- flush_all_new objs' ;;
      ret (key :: keys)
  end.

Fixpoint flush_all_deleted (ids : list Z) : M unit :=
  match ids with
  | [] => ret tt
  | id :: ids' =>
      send (DELETE_messages id) (delete_messages id) ;;
      flush_all_deleted ids'
  end.

(** [db.flush()]: the pending inserts, then the pending deletes.  The keys
    the store assigned are written back into the new objects; here they are
    returned. *)
Definition flush : M (list Z) :=
  fun s =>
    (keys <- flush_all_new (new s) ;;
     flush_all_deleted (deleted s) ;;
     ret keys)
      {| conn := conn s; now := now s; new := []; deleted := [];
         log := log s |}.

(** [db.refresh(chat)] for the chat that received [keys] at the flush. *)
Definition refresh_Chat (keys : list Z) : M Chat.t :=
  match keys with
  | [key] =>
      rows <- execute_select_Chat key false ;;
      match rows with
      | [chat] => ret chat
      | _ => raise (SQLAlchemyError "InvalidRequestError")
      end
  | _ => raise (SQLAlchemyError "InvalidRequestError")
  end.

(** [db.refresh(message)]. *)
Definition refresh_Message (keys : list Z) : M Message.t :=
  match keys with
  | [key] =>
      send (SELECT_messages_by_id key) (fun d => d) ;;
      rows <- read (fun d => filter (message_has_id key) (messages d)) ;;
      match rows with
      | [message] => ret message
      | _ => raise (SQLAlchemyError "InvalidRequestError")
      end
  | _ => raise (SQLAlchemyError "InvalidRequestError")
  end.

(** [session.commit()]. *)
Definition commit : M unit :=
  flush ;; send COMMIT (fun d => d).

(** What a rolled back transaction leaves behind: the rows are those of
    [before]; sequence values already handed out stay consumed. *)
Definition rollback (before : Database) (s : Session) : Database :=
  {| chats := chats before; messages := messages before;
     chats_id_seq := chats_id_seq (conn s);
     messages_id_seq := messages_id_seq (conn s) |}.

(** [AsyncSessionLocal()]: the session a request starts with. *)
Definition fresh (store : Database) (clock : Z) : Session :=
  {| conn := store; now := clock; new := []; deleted := []; log := [] |}.

(** [get_db]: a fresh session for the request; the endpoint runs where the
    generator yields; then [commit], or [rollback] when anything raised.
    The result is the endpoint's outcome, the store after the request, and
    the statements the request sent. *)
Definition get_db {A : Type} (endpoint : M A) (store : Database) (clock : Z)
    : (Exception + A) * Database * list Statement :=
  match endpoint (fresh store clock) with
  | (inr a, s1) =>
      match commit s1 with
      | (inr _, s2) => (inr a, conn s2, log s2)
      | (inl e, s2) => (inl e, rollback store s2, log s2 ++ [ROLLBACK])
      end
  | (inl e, s1) => (inl e, rollback store s1, log s1 ++ [ROLLBACK])
  end.

(** ** [app/services/chat_service.py] *)

Module ChatService.

(** [create_chat]. *)
Definition create_chat (chat_data : ChatCreate.t) : M Chat.t :=
  add (new_Chat (ChatCreate.title chat_data)) ;;
  keys <- flush ;;
  refresh_Chat keys.

(** [get_chat_by_id]. *)
Definition get_chat_by_id (chat_id : Z) (load_messages : bool)
    : M (option Chat.t) :=
  result <- execute_select_Chat chat_id load_messages ;;
  scalar_one_or_none result.

(** [get_chat_with_messages]. *)
Definition get_chat_with_messages (tie : Tie) (chat_id limit offset : Z)
    : M Chat.t :=
  chat <- get_chat_by_id chat_id false ;;
  match chat with
  | None => raise (ChatNotFoundException chat_id)
  | Some chat =>
      messages <- execute_select_Message tie chat_id limit offset ;;
      set_messages chat messages
  end.

(** [create_message]. *)
Definition create_message (chat_id : Z) (message_data : MessageCreate.t)
    : M Message.t :=
  chat <- get_chat_by_id chat_id false ;;
  match chat with
  | None => raise (ChatNotFoundException chat_id)
  | Some _ =>
      add (new_Message chat_id (MessageCreate.text message_data)) ;;
      keys <- flush ;;
      refresh_Message keys
  end.

(** [delete_chat]. *)
Definition delete_chat (chat_id : Z) : M bool :=
  chat <- get_chat_by_id chat_id false ;;
  match chat with
  | None => ret false
  | Some _ =>
      send (DELETE_chats chat_id) (delete_chats chat_id) ;;
      flush ;;
      ret true
  end.

End ChatService.

(** ** [app/routers/chats.py] *)

(** The body of a response. *)
Inductive Content :=
| ChatResponse (id : Z) (title : pystr) (created_at : Z)
| MessageResponse (message : Message.t)
| ChatWithMessages (chat : Chat.t)
| detail (msg : string)
| detail_errors (errors : list ErrorDetails)
| no_content.

(** [Query(ge=.., le=..)] on an [int] parameter. *)
Definition Query (ge le : option Z) (name : string) (v : Z)
    : list ErrorDetails :=
  match le with
  | Some hi =>
      if hi <? v then [ {| loc := name; type := less_than_equal hi |} ]
      else []
  | None => []
  end
  ++
  match ge with
  | Some lo =>
      if v <? lo then [ {| loc := name; type := greater_than_equal lo |} ]
      else []
  | None => []
  end.

Module routers.

(** [create_chat]. *)
Definition create_chat (chat_data : ChatCreate.t) : M Content :=
  chat <- ChatService.create_chat chat_data ;;
  ret (ChatResponse (Chat.id chat) (Chat.title chat) (Chat.created_at chat)).

(** [create_message]. *)
Definition create_message (chat_id : Z) (message_data : MessageCreate.t)
    : M Content :=
  message <- ChatService.create_message chat_id message_data ;;
  ret (MessageResponse message).

(** The declared bounds of the query parameters of [get_chat]. *)
Definition get_chat_params (limit offset : Z) : list ErrorDetails :=
  Query (Some 1) (Some 100) "limit" limit ++ Query (Some 0) None "offset" offset.

(** [get_chat]. *)
Definition get_chat (tie : Tie) (chat_id limit offset : Z) : M Content :=
  chat <- ChatService.get_chat_with_messages tie chat_id limit offset ;;
  ret (ChatWithMessages chat).

(** [delete_chat]. *)
Definition delete_chat (chat_id : Z) : M Content :=
  deleted <- ChatService.delete_chat chat_id ;;
  if negb deleted then raise (ChatNotFoundException chat_id)
  else ret no_content.

End routers.

(** ** [app/main.py]: the application *)

Record Response := { status_code : Z; content : Content }.

(** The detail [ChatNotFoundException] is built with. *)
Definition ChatNotFoundException_detail (chat_id : Z) : string :=
  ("Chat with id " ++ str_of_int chat_id ++ " not found")%string.

(** An entry of [exc.errors()] that [JSONResponse] can render.  The entry
    of a [ValueError] raised in a validator holds the exception object, and
    the entry of [string_unicode] echoes a string that has no encoding:
    rendering either fails. *)
Definition renders (e : ErrorDetails) : bool :=
  match type e with
  | value_error _ => false
  | string_unicode => false
  | _ => true
  end.

(** The exception handlers.  [validation_exception_handler] hands
    [exc.errors()] to [JSONResponse] as it is; when that fails to render,
    the handler for [Exception] answers. *)
Definition exception_handler (exc : Exception) : Response :=
  match exc with
  | ChatNotFoundException chat_id =>
      {| status_code := 404;
         content := detail (ChatNotFoundException_detail chat_id) |}
  | RequestValidationError errors =>
      if forallb renders errors then
        {| status_code := 422; content := detail_errors errors |}
      else
        {| status_code := 500; content := detail "Internal server error" |}
  | SQLAlchemyError _ =>
      {| status_code := 500; content := detail "Internal server error" |}
  end.

(** What a request leaves: the response, the store, and the statements the
    request sent to it. *)
Definition Outcome : Type := Response * Database * list Statement.

(** A request whose parameters and body do not validate is answered before
    the endpoint, and so the session, is used at all. *)
Definition reject (errors : list ErrorDetails) (store : Database) : Outcome :=
  (exception_handler (RequestValidationError errors), store, []).

(** A request that reaches its endpoint. *)
Definition serve (status : Z) (endpoint : M Content) (store : Database)
    (clock : Z) : Outcome :=
  match get_db endpoint store clock with
  | (inr body, store', sent) =>
      ({| status_code := status; content := body |}, store', sent)
  | (inl exc, store', sent) => (exception_handler exc, store', sent)
  end.

(** [POST /chats/]. *)
Definition POST_chats (title : pystr) (store : Database) (clock : Z)
    : Outcome :=
  match ChatCreate.model_validate title with
  | inl errors => reject errors store
  | inr chat_data => serve 201 (routers.create_chat chat_data) store clock
  end.

(** [POST /chats/{chat_id}/messages/]. *)
Definition POST_messages (chat_id : Z) (text : pystr) (store : Database)
    (clock : Z) : Outcome :=
  match MessageCreate.model_validate text with
  | inl errors => reject errors store
  | inr message_data =>
      serve 201 (routers.create_message chat_id message_data) store clock
  end.

(** [GET /chats/{chat_id}?limit=&offset=]. *)
Definition GET_chat (tie : Tie) (chat_id limit offset : Z) (store : Database)
    (clock : Z) : Outcome :=
  match routers.get_chat_params limit offset with
  | [] => serve 200 (routers.get_chat tie chat_id limit offset) store clock
  | errors => reject errors store
  end.

(** [DELETE /chats/{chat_id}]. *)
Definition DELETE_chat (chat_id : Z) (store : Database) (clock : Z)
    : Outcome :=
  serve 204 (routers.delete_chat chat_id) store clock.

(** A query parameter that may be left out, with its declared default. *)
Definition default_to (default : Z) (v : option Z) : Z :=
  match v with Some z => z | None => default end.

(** The requests of the interface, and their dispatch; [limit] defaults to
    20 and [offset] to 0. *)
Inductive Request :=
| post_chats (title : pystr)
| post_messages (chat_id : Z) (text : pystr)
| get_chat (chat_id : Z) (limit offset : option Z)
| delete_chat (chat_id : Z).

Definition handle (tie : Tie) (req : Request) (store : Database) (clock : Z)
    : Outcome :=
  match req with
  | post_chats title => POST_chats title store clock
  | post_messages chat_id text => POST_messages chat_id text store clock
  | get_chat chat_id limit offset =>
      GET_chat tie chat_id (default_to 20 limit) (default_to 0 offset) store
        clock
  | delete_chat chat_id => DELETE_chat chat_id store clock
  end.

(** The messages a response body carries. *)
Definition retrieved (body : Content) : list Message.t :=
  match body with
  | MessageResponse message => [message]
  | ChatWithMessages chat => Chat.messages chat
  | _ => []
  end.

(** ** Vocabulary of the statements below *)

(** [s] after sending the read-only statements [sent]. *)
Definition logged (s : Session) (sent : list Statement) : Session :=
  {| conn := conn s; now := now s; new := new s; deleted := deleted s;
     log := log s ++ sent |}.

(** [a] comes before [b] in descending order of creation time. *)
Definition desc (a b : Message.t) : Prop :=
  Message.created_at b <= Message.created_at a.

(** The [Chat] object of a row, with a given collection. *)
Definition Chat_of (r : chats_row) (collection : list Message.t) : Chat.t :=
  Chat.mk (chats_id r) (chats_title r) (chats_created_at r) collection.

(** The messages of [collection] that are not in [page], by primary key. *)
Definition outside (page collection : list Message.t) : list Message.t :=
  filter (fun m => negb (existsb (message_has_id (Message.id m)) page))
         collection.

(** The store after [DELETE FROM messages WHERE id = :id] for each key. *)
Definition delete_all_messages (ids : list Z) (d : Database) : Database :=
  fold_left (fun d id => delete_messages id d) ids d.

(** The store before any request. *)
Definition empty_store : Database :=
  {| chats := []; messages := []; chats_id_seq := 0; messages_id_seq := 0 |}.

(** The store a request leaves. *)
Definition store_after (o : Outcome) : Database := snd (fst o).

(** The response of a request. *)
Definition response_of (o : Outcome) : Response := fst (fst o).

(** A chat with three messages, posted in the order First, Second, Third. *)
Definition three_messages : Database :=
  {| chats := [ {| chats_id := 1; chats_title := of_string "Test Chat";
                   chats_created_at := 10 |} ];
     messages := [ Message.mk 1 1 (of_string "First") 11;
                   Message.mk 2 1 (of_string "Second") 12;
                   Message.mk 3 1 (of_string "Third") 13 ];
     chats_id_seq := 1;
     messages_id_seq := 3 |}.

(** The inputs of [test_title_boundary_after_trim] and
    [test_text_boundary_after_trim]: the bound's worth of ['a'] between two
    pairs of spaces. *)
Definition title_with_spaces : pystr :=
  of_string "  " ++ repeat 97 200 ++ of_string "  ".

Definition text_with_spaces : pystr :=
  of_string "  " ++ repeat 97 5000 ++ of_string "  ".

(** Splits a goal on every comparison it tests. *)
Ltac split_ltb :=
  repeat match goal with
    | |- context [ ?a <? ?b ] => destruct (Z.ltb_spec a b)
    end.

(** ** Well-formed stores *)

(** [s] neither starts nor ends with whitespace. *)
Definition trimmed (s : pystr) : bool :=
  match s with
  | [] => true
  | c :: _ => negb (isspace c) && negb (isspace (last s c))
  end.

(** [s] is a value the schemas hand to the service for a column of width
    [bound]: well-formed Unicode, between 1 and [bound] characters, with no
    whitespace around. *)
Definition canonical (bound : Z) (s : pystr) : bool :=
  valid_str s && (1 <=? len s) && (len s <=? bound) && trimmed s.

(** No key occurs twice. *)
Fixpoint distinct (ids : list Z) : bool :=
  match ids with
  | [] => true
  | id :: rest => negb (existsb (Z.eqb id) rest) && distinct rest
  end.

(** The constraints the models declare and the sequences maintain: [id] is
    the primary key of both tables and was handed out by the sequence, a
    32-bit integer; [messages.chat_id] references a row of [chats]; the
    titles and texts are values the schemas produced, without U+0000. *)
Definition well_formed (d : Database) : bool :=
  distinct (map chats_id (chats d))
  && distinct (map Message.id (messages d))
  && forallb (fun r => chats_id r <=? chats_id_seq d) (chats d)
  && forallb (fun m => Message.id m <=? messages_id_seq d) (messages d)
  && forallb (fun m => existsb (chat_has_id (Message.chat_id m)) (chats d))
       (messages d)
  && forallb (fun r => canonical 200 (chats_title r)
                       && negb (has_nul (chats_title r))) (chats d)
  && forallb (fun m => canonical 5000 (Message.text m)
                       && negb (has_nul (Message.text m))) (messages d)
  && int32 (chats_id_seq d) && int32 (messages_id_seq d).

(** [raw] is [value] with whitespace before and after it. *)
Definition surrounds (raw value : pystr) : Prop :=
  exists lead trail : pystr,
    raw = lead ++ value ++ trail
    /\ forallb isspace lead = true /\ forallb isspace trail = true.




(** The store after a series of requests, each with the time it arrives
    and the engine's choice of order. *)
Definition serve_all (requests : list (Tie * Request * Z)) (store : Database)
    : Database :=
  fold_left
    (fun d r => store_after (handle (fst (fst r)) (snd (fst r)) d (snd r)))
    requests store.

(** Two chats with messages of their own. *)
Definition two_chats : Database :=
  {| chats := [ {| chats_id := 1; chats_title := of_string "Test Chat";
                   chats_created_at := 10 |};
                {| chats_id := 2; chats_title := of_string "Other";
                   chats_created_at := 20 |} ];
     messages := [ Message.mk 1 1 (of_string "First") 11;
                   Message.mk 2 2 (of_string "Hello") 21;
                   Message.mk 3 1 (of_string "Second") 12;
                   Message.mk 4 2 (of_string "World") 22 ];
     chats_id_seq := 2;
     messages_id_seq := 4 |}.

(** An engine that puts the row it meets first among equal timestamps, and
    one that puts it last. *)
Definition first_met : Tie := fun _ _ => true.

Definition last_met : Tie := fun _ _ => false.

(** The place of the row with key [id] in a listing. *)
Fixpoint position (id : Z) (listing : list Message.t) : nat :=
  match listing with
  | [] => 0
  | x :: rest => if Message.id x =? id then 0 else S (position id rest)
  end.

(** An engine that returns rows of equal timestamps in the order they have
    in [listing]. *)
Definition follows (listing : list Message.t) : Tie :=
  fun m x =>
    (position (Message.id m) listing <? position (Message.id x) listing)%nat.

(** Settles the lines of the table of errors once the tests are decided. *)
Ltac settle_error_lines :=
  repeat match goal with
    | |- _ /\ _ => split
    | |- _ <-> _ => split
    | |- _ -> _ => intro
    | |- forall _, _ => intro
    | H : _ /\ _ |- _ => destruct H
    | H : inl _ = inl _ |- _ => injection H as H
    | H : inr _ = inr _ |- _ => injection H as H
    end;
  subst; try discriminate; try congruence; try lia; try reflexivity;
  auto 6.

(** * Properties *)

(** ** Trimming *)

Section Trimming.

Lemma lstrip_length (s : pystr) : (List.length (lstrip s) <= List.length s)%nat.
Proof.
  induction s as [|c s IH]; simpl; [lia|].
  destruct (isspace c); simpl; lia.
Qed.

Lemma rstrip_length (s : pystr) : (List.length (rstrip s) <= List.length s)%nat.
Proof.
  induction s as [|c s IH]; simpl; [lia|].
  destruct (rstrip s) as [|x r]; [destruct (isspace c)|]; simpl in *; lia.
Qed.

Lemma strip_len (s : pystr) : len (strip s) <= len s.
Proof.
  unfold len, strip.
  pose proof (rstrip_length (lstrip s)). pose proof (lstrip_length s). lia.
Qed.

(** What [lstrip] returns does not start with whitespace. *)
Lemma lstrip_head (s : pystr) :
  lstrip s = [] \/ exists c r, lstrip s = c :: r /\ isspace c = false.
Proof.
  induction s as [|c s IH]; simpl; [now left|].
  destruct (isspace c) eqn:E; [exact IH|].
  right. now exists c, s.
Qed.

(** [rstrip] keeps a first character that is not whitespace. *)
Lemma rstrip_head (c : codepoint) (r : pystr) :
  isspace c = false -> exists r', rstrip (c :: r) = c :: r'.
Proof.
  intros E. simpl. destruct (rstrip r) as [|x r'].
  - rewrite E. now exists [].
  - now exists (x :: r').
Qed.

Lemma rstrip_idempotent (s : pystr) : rstrip (rstrip s) = rstrip s.
Proof.
  induction s as [|c s IH]; simpl; [reflexivity|].
  destruct (rstrip s) as [|x r] eqn:E.
  - destruct (isspace c) eqn:Ec; simpl; [reflexivity|now rewrite Ec].
  - change (rstrip (c :: x :: r)) with
      (match rstrip (x :: r) with
       | [] => if isspace c then [] else [c]
       | y :: r' => c :: y :: r'
       end).
    now rewrite IH.
Qed.

Lemma strip_idempotent (s : pystr) : strip (strip s) = strip s.
Proof.
  unfold strip.
  destruct (lstrip_head s) as [E | (c & r & E & Hc)]; rewrite E.
  - reflexivity.
  - destruct (rstrip_head c r Hc) as (r' & E').
    rewrite E'. simpl lstrip. rewrite Hc, <- E'.
    apply rstrip_idempotent.
Qed.

Lemma is_empty_len (s : pystr) : is_empty s = (len s <? 1).
Proof.
  destruct s; [reflexivity|].
  unfold len. simpl List.length. symmetry. apply Z.ltb_ge. lia.
Qed.

Lemma utf8_len_ge (s : pystr) : len s <= utf8_len s.
Proof.
  unfold len. induction s as [|c s IH]; simpl; [lia|].
  assert (1 <= utf8_width c)
    by (unfold utf8_width; repeat destruct (_ <? _); lia).
  lia.
Qed.

End Trimming.

(** ** What trimming removes *)

Section Surroundings.

Lemma lstrip_split (s : pystr) :
  exists lead, s = lead ++ lstrip s /\ forallb isspace lead = true.
Proof.
  induction s as [|c s (lead & E & H)]; simpl.
  - now exists [].
  - destruct (isspace c) eqn:Ec.
    + exists (c :: lead). simpl. rewrite Ec, H. now rewrite <- E.
    + now exists [].
Qed.

Lemma rstrip_split (s : pystr) :
  exists trail, s = rstrip s ++ trail /\ forallb isspace trail = true.
Proof.
  induction s as [|c s (trail & E & H)]; simpl.
  - now exists [].
  - destruct (rstrip s) as [|x r].
    + destruct (isspace c) eqn:Ec.
      * exists (c :: s). simpl in *. subst s. now rewrite Ec, H.
      * exists s. simpl in *. now subst s.
    + exists trail. split; [|exact H]. simpl in *. now f_equal.
Qed.

Lemma strip_surrounds (s : pystr) : surrounds s (strip s).
Proof.
  destruct (lstrip_split s) as (lead & E1 & H1).
  destruct (rstrip_split (lstrip s)) as (trail & E2 & H2).
  exists lead, trail. unfold strip. now rewrite <- E2.
Qed.

(** What [rstrip] returns does not end with whitespace. *)
Lemma rstrip_last (s : pystr) (d : codepoint) :
  rstrip s = [] \/ isspace (last (rstrip s) d) = false.
Proof.
  induction s as [|c s IH]; simpl; [now left|].
  destruct (rstrip s) as [|x r] eqn:E.
  - destruct (isspace c) eqn:Ec; [now left|right; exact Ec].
  - right. destruct IH as [IH|IH]; [discriminate|].
    exact IH.
Qed.

Lemma strip_trimmed (s : pystr) : trimmed (strip s) = true.
Proof.
  unfold strip.
  destruct (lstrip_head s) as [E | (c & r & E & Hc)]; rewrite E;
    [reflexivity|].
  destruct (rstrip_head c r Hc) as (r' & E').
  destruct (rstrip_last (c :: r) c) as [H|H]; [congruence|].
  rewrite E' in *. unfold trimmed. now rewrite Hc, H.
Qed.

(** [rstrip] returns a string that does not end with whitespace as it is. *)
Lemma rstrip_fixed (s : pystr) (d : codepoint) :
  s <> [] -> isspace (last s d) = false -> rstrip s = s.
Proof.
  induction s as [|c s IH]; [congruence|]. intros _ H.
  destruct s as [|x r].
  - simpl in *. now rewrite H.
  - change (last (c :: x :: r) d) with (last (x :: r) d) in H.
    change (rstrip (c :: x :: r)) with
      (match rstrip (x :: r) with
       | [] => if isspace c then [] else [c]
       | y :: r' => c :: y :: r'
       end).
    now rewrite IH.
Qed.

Lemma trimmed_strip (s : pystr) : trimmed s = true -> strip s = s.
Proof.
  destruct s as [|c r]; [reflexivity|].
  unfold trimmed. intros H. apply andb_prop in H as [Hc Hl].
  apply negb_true_iff in Hc, Hl.
  unfold strip. simpl lstrip. rewrite Hc.
  now apply (rstrip_fixed (c :: r) c).
Qed.

End Surroundings.

(** ** Validation *)

Lemma strip_valid (s : pystr) : valid_str s = true -> valid_str (strip s) = true.
Proof.
  destruct (strip_surrounds s) as (lead & trail & E & _ & _).
  unfold valid_str. rewrite E at 1. rewrite !forallb_app.
  intros H. apply andb_prop in H as [_ H]. now apply andb_prop in H as [H _].
Qed.

(** The validation of a title as one decision list: the received string
    must be well-formed and within the declared bounds, the validator tests
    the trimmed one, and its length test can no longer fail. *)
Lemma validate_title_eq (raw : pystr) :
  ChatCreate.validate_title raw =
    if negb (valid_str raw) then inl string_unicode
    else if len raw <? 1 then inl (string_too_short 1)
    else if 200 <? len raw then inl (string_too_long 200)
    else if len (strip raw) <? 1 then
      inl (value_error "Title cannot be empty or only whitespace")
    else inr (strip raw).
Proof.
  unfold ChatCreate.validate_title, ChatCreate.trim_and_validate_title, Field.
  cbv zeta. pose proof (strip_len raw).
  destruct (valid_str raw); cbn [negb]; [|reflexivity].
  split_ltb; try reflexivity; rewrite is_empty_len; split_ltb;
    try reflexivity; lia.
Qed.

Lemma validate_text_eq (raw : pystr) :
  MessageCreate.validate_text raw =
    if negb (valid_str raw) then inl string_unicode
    else if len raw <? 1 then inl (string_too_short 1)
    else if 5000 <? len raw then inl (string_too_long 5000)
    else if len (strip raw) <? 1 then
      inl (value_error "Text cannot be empty or only whitespace")
    else inr (strip raw).
Proof.
  unfold MessageCreate.validate_text, MessageCreate.trim_and_validate_text,
    Field.
  cbv zeta. pose proof (strip_len raw).
  destruct (valid_str raw); cbn [negb]; [|reflexivity].
  split_ltb; try reflexivity; rewrite is_empty_len; split_ltb;
    try reflexivity; lia.
Qed.

(** What the code accepts as a title: the received string is well-formed,
    has at most 200 characters and is not blank. *)
Lemma validate_title_inr (raw t : pystr) :
  ChatCreate.validate_title raw = inr t <->
  valid_str raw = true /\ len raw <= 200 /\ 1 <= len (strip raw)
  /\ t = strip raw.
Proof.
  rewrite validate_title_eq. pose proof (strip_len raw).
  destruct (valid_str raw); cbn [negb].
  - split_ltb; (split; [intros E | intros (_ & ? & ? & ->)]);
      try discriminate; try lia; try reflexivity.
    injection E as <-. repeat split; lia || reflexivity.
  - split; [discriminate | intros (? & _); discriminate].
Qed.

Lemma validate_text_inr (raw t : pystr) :
  MessageCreate.validate_text raw = inr t <->
  valid_str raw = true /\ len raw <= 5000 /\ 1 <= len (strip raw)
  /\ t = strip raw.
Proof.
  rewrite validate_text_eq. pose proof (strip_len raw).
  destruct (valid_str raw); cbn [negb].
  - split_ltb; (split; [intros E | intros (_ & ? & ? & ->)]);
      try discriminate; try lia; try reflexivity.
    injection E as <-. repeat split; lia || reflexivity.
  - split; [discriminate | intros (? & _); discriminate].
Qed.

(** A text the rule of the specification refuses is refused by the code. *)
Lemma validate_text_refuses (raw : pystr) :
  len (strip raw) < 1 \/ 5000 < len (strip raw) ->
  accepted (MessageCreate.validate_text raw) = false.
Proof.
  intros H. rewrite validate_text_eq. pose proof (strip_len raw).
  destruct (valid_str raw); cbn [negb]; [|reflexivity].
  split_ltb; try reflexivity; lia.
Qed.

(** C1 (fails on the code).  The claim: a title is accepted exactly when its
    trimmed form has between 1 and 200 characters, whatever the length of the
    received string (and likewise a text, with 5000).  The test suite says so
    for the strings above, whose trimmed forms have exactly 200 and 5000
    characters.  The code refuses both: the declared [max_length] is checked
    on the received string, 204 and 5004 characters long, before the
    validator trims it; the validator alone would have accepted them, and the
    same 200 and 5000 characters without the spaces are accepted.  The
    requests that carry them are answered 422. *)
Theorem boundary_after_trim_refused :
  (len title_with_spaces = 204
   /\ strip title_with_spaces = repeat 97 200
   /\ len (strip title_with_spaces) = 200
   /\ ChatCreate.trim_and_validate_title title_with_spaces
      = inr (repeat 97 200)
   /\ ChatCreate.validate_title title_with_spaces = inl (string_too_long 200)
   /\ ChatCreate.validate_title (repeat 97 200) = inr (repeat 97 200))
  /\
  (len text_with_spaces = 5004
   /\ strip text_with_spaces = repeat 97 5000
   /\ len (strip text_with_spaces) = 5000
   /\ MessageCreate.trim_and_validate_text text_with_spaces
      = inr (repeat 97 5000)
   /\ MessageCreate.validate_text text_with_spaces
      = inl (string_too_long 5000)
   /\ MessageCreate.validate_text (repeat 97 5000) = inr (repeat 97 5000))
  /\
  (POST_chats title_with_spaces empty_store 10
   = ({| status_code := 422;
         content := detail_errors
                      [ {| loc := "title"; type := string_too_long 200 |} ] |},
      empty_store, [])
   /\ POST_messages 1 text_with_spaces three_messages 14
      = ({| status_code := 422;
            content := detail_errors
                         [ {| loc := "text"; type := string_too_long 5000 |} ] |},
         three_messages, [])).
Proof. vm_compute. repeat split. Qed.

(** C9 as stated fails: the trimmed form of a blank title has 0 characters,
    which is at most 200, and the title is refused (and likewise a blank
    text); and a title of three code points, the second a lone surrogate
    (U+D800), is refused as not being a Unicode string. *)
Lemma blank_or_surrogate_refused :
  len (strip (of_string "   ")) <= 200
  /\ accepted (ChatCreate.validate_title (of_string "   ")) = false
  /\ len (strip (of_string "   ")) <= 5000
  /\ accepted (MessageCreate.validate_text (of_string "   ")) = false
  /\ len (strip [97; 55296; 98]) <= 200
  /\ ChatCreate.validate_title [97; 55296; 98] = inl string_unicode
  /\ MessageCreate.validate_text [97; 55296; 98] = inl string_unicode.
Proof. vm_compute. repeat split; discriminate. Qed.

(** C9 (amended).  The bounds count characters, not bytes: a title that is
    well-formed Unicode, arrives with at most 200 characters and keeps at
    least one after trimming is accepted, with its trimmed form as value,
    and so is a text that arrives with at most 5000; the size of the
    encoding, [utf8_len], plays no part. *)
Theorem bounds_count_characters (title text : pystr) :
  valid_str title = true -> len title <= 200 -> 1 <= len (strip title) ->
  valid_str text = true -> len text <= 5000 -> 1 <= len (strip text) ->
  ChatCreate.validate_title title = inr (strip title)
  /\ MessageCreate.validate_text text = inr (strip text).
Proof.
  intros Hv1 Ht1 Ht2 Hv2 Hx1 Hx2. split.
  - now apply validate_title_inr.
  - now apply validate_text_inr.
Qed.

(** 200 rockets (U+1F680, four bytes each) and 5000 times U+4E2D (three
    bytes each): 800 and 15000 bytes, both accepted. *)
Lemma bounds_count_characters_witness :
  utf8_len (repeat 128640 200) = 800
  /\ utf8_len (repeat 20013 5000) = 15000
  /\ ChatCreate.validate_title (repeat 128640 200)
     = inr (strip (repeat 128640 200))
  /\ MessageCreate.validate_text (repeat 20013 5000)
     = inr (strip (repeat 20013 5000)).
Proof.
  split; [reflexivity|]. split; [reflexivity|].
  apply (bounds_count_characters (repeat 128640 200) (repeat 20013 5000));
    vm_compute; reflexivity || discriminate.
Defined.

(** C10.  Trimming is idempotent; hence a value that title validation
    returned is accepted again and returned unchanged, and likewise for
    text validation. *)
Theorem trimming_idempotent :
  (forall s : pystr, strip (strip s) = strip s)
  /\ (forall raw t : pystr,
        ChatCreate.validate_title raw = inr t ->
        ChatCreate.validate_title t = inr t)
  /\ (forall raw t : pystr,
        MessageCreate.validate_text raw = inr t ->
        MessageCreate.validate_text t = inr t).
Proof.
  split; [exact strip_idempotent|].
  split; intros raw t H.
  - apply validate_title_inr in H as (H0 & H1 & H2 & ->).
    pose proof (strip_len raw).
    apply validate_title_inr. rewrite strip_idempotent.
    repeat split; try lia. now apply strip_valid.
  - apply validate_text_inr in H as (H0 & H1 & H2 & ->).
    pose proof (strip_len raw).
    apply validate_text_inr. rewrite strip_idempotent.
    repeat split; try lia. now apply strip_valid.
Qed.

Lemma trimming_idempotent_witness :
  strip (strip (of_string "  Trimmed Title  "))
  = strip (of_string "  Trimmed Title  ")
  /\ ChatCreate.validate_title (of_string "Trimmed Title")
     = inr (of_string "Trimmed Title")
  /\ MessageCreate.validate_text (of_string "Trimmed text")
     = inr (of_string "Trimmed text").
Proof.
  destruct trimming_idempotent as (Hs & Ht & Hx).
  split; [apply Hs|]. split.
  - apply (Ht (of_string "  Trimmed Title  ")). reflexivity.
  - apply (Hx (of_string "  Trimmed text  ")). reflexivity.
Defined.


(** ** The values and the errors of the schemas *)

Lemma len_nil_iff (s : pystr) : len s < 1 <-> s = [].
Proof.
  unfold len. destruct s; simpl List.length; split; intros H;
    try reflexivity; try discriminate; lia.
Qed.

Lemma strip_nil_blank (s : pystr) : strip s = [] -> forallb isspace s = true.
Proof.
  intros E. destruct (strip_surrounds s) as (lead & trail & Es & H1 & H2).
  rewrite E in Es. rewrite Es. simpl. rewrite forallb_app.
  now rewrite H1, H2.
Qed.

Lemma blank_strip_nil (s : pystr) : forallb isspace s = true -> strip s = [].
Proof.
  intros H. unfold strip.
  replace (lstrip s) with (@nil codepoint); [reflexivity|].
  induction s as [|c s IH]; [reflexivity|]. simpl in *.
  apply andb_prop in H as [Hc Hs]. rewrite Hc. now apply IH.
Qed.

(** The trimmed form is empty exactly on a string of whitespace. *)
Lemma strip_blank (s : pystr) : (len (strip s) <? 1) = forallb isspace s.
Proof.
  destruct (forallb isspace s) eqn:E.
  - rewrite (blank_strip_nil s E). reflexivity.
  - apply Z.ltb_ge. destruct (Z.lt_ge_cases (len (strip s)) 1) as [H|H];
      [|exact H].
    apply len_nil_iff, strip_nil_blank in H. congruence.
Qed.

Lemma validate_title_canonical (raw t : pystr) :
  ChatCreate.validate_title raw = inr t -> canonical 200 t = true.
Proof.
  intros H. apply validate_title_inr in H as (H0 & H1 & H2 & ->).
  pose proof (strip_len raw). unfold canonical.
  rewrite strip_trimmed, (strip_valid raw H0).
  replace (1 <=? len (strip raw)) with true by (symmetry; apply Z.leb_le; lia).
  replace (len (strip raw) <=? 200) with true
    by (symmetry; apply Z.leb_le; lia).
  reflexivity.
Qed.

Lemma validate_text_canonical (raw t : pystr) :
  MessageCreate.validate_text raw = inr t -> canonical 5000 t = true.
Proof.
  intros H. apply validate_text_inr in H as (H0 & H1 & H2 & ->).
  pose proof (strip_len raw). unfold canonical.
  rewrite strip_trimmed, (strip_valid raw H0).
  replace (1 <=? len (strip raw)) with true by (symmetry; apply Z.leb_le; lia).
  replace (len (strip raw) <=? 5000) with true
    by (symmetry; apply Z.leb_le; lia).
  reflexivity.
Qed.

Lemma canonical_inv (bound : Z) (s : pystr) :
  canonical bound s = true ->
  valid_str s = true /\ 1 <= len s <= bound /\ trimmed s = true.
Proof.
  unfold canonical. intros H.
  apply andb_prop in H as [H H3]. apply andb_prop in H as [H H2].
  apply andb_prop in H as [H0 H1].
  apply Z.leb_le in H1, H2. now repeat split.
Qed.

(** X1.  A value the schemas accept is the received string without the
    whitespace around it and nothing else removed: the received string is
    whitespace, then the value, then whitespace; the value has between 1 and
    200 (5000) characters and neither starts nor ends with whitespace. *)
Theorem accepted_value_canonical :
  (forall raw t : pystr,
     ChatCreate.validate_title raw = inr t ->
     surrounds raw t /\ canonical 200 t = true)
  /\ (forall raw t : pystr,
        MessageCreate.validate_text raw = inr t ->
        surrounds raw t /\ canonical 5000 t = true).
Proof.
  split; intros raw t H; split.
  - apply validate_title_inr in H as (_ & _ & _ & ->). apply strip_surrounds.
  - exact (validate_title_canonical raw t H).
  - apply validate_text_inr in H as (_ & _ & _ & ->). apply strip_surrounds.
  - exact (validate_text_canonical raw t H).
Qed.

Lemma accepted_value_canonical_witness :
  (surrounds (of_string "  Trimmed Title  ") (of_string "Trimmed Title")
   /\ canonical 200 (of_string "Trimmed Title") = true)
  /\ (surrounds (of_string "  Trimmed text  ") (of_string "Trimmed text")
      /\ canonical 5000 (of_string "Trimmed text") = true).
Proof.
  destruct accepted_value_canonical as [Ht Hx]. split.
  - apply Ht. reflexivity.
  - apply Hx. reflexivity.
Defined.

(** X2.  A string of well-formed Unicode that has between 1 and 200 (5000)
    characters and no whitespace around it is accepted as it is, whatever it
    has inside: spaces, line breaks, characters of any script. *)
Theorem canonical_value_unchanged :
  (forall raw : pystr,
     canonical 200 raw = true -> ChatCreate.validate_title raw = inr raw)
  /\ (forall raw : pystr,
        canonical 5000 raw = true -> MessageCreate.validate_text raw = inr raw).
Proof.
  split; intros raw H; apply canonical_inv in H as (Hv & Hl & Ht);
    apply trimmed_strip in Ht.
  - apply validate_title_inr. rewrite Ht. repeat split; trivial; lia.
  - apply validate_text_inr. rewrite Ht. repeat split; trivial; lia.
Qed.

(** The multi-line text of [test_text_with_newlines] and a title with a tab
    inside. *)
Lemma canonical_value_unchanged_witness :
  ChatCreate.validate_title (97 :: 9 :: of_string "b")
  = inr (97 :: 9 :: of_string "b")
  /\ MessageCreate.validate_text
       (of_string "Line 1" ++ 10 :: of_string "Line 2" ++ 10
          :: of_string "Line 3")
     = inr (of_string "Line 1" ++ 10 :: of_string "Line 2" ++ 10
              :: of_string "Line 3").
Proof.
  destruct canonical_value_unchanged as [Ht Hx]. split.
  - apply Ht. reflexivity.
  - apply Hx. reflexivity.
Defined.

(** The decision list of a field in terms of the received string alone. *)
Lemma validate_title_cases (raw : pystr) :
  ChatCreate.validate_title raw =
    if negb (valid_str raw) then inl string_unicode
    else if is_empty raw then inl (string_too_short 1)
    else if 200 <? len raw then inl (string_too_long 200)
    else if forallb isspace raw then
      inl (value_error "Title cannot be empty or only whitespace")
    else inr (strip raw).
Proof.
  rewrite validate_title_eq. now rewrite is_empty_len, strip_blank.
Qed.

Lemma validate_text_cases (raw : pystr) :
  MessageCreate.validate_text raw =
    if negb (valid_str raw) then inl string_unicode
    else if is_empty raw then inl (string_too_short 1)
    else if 5000 <? len raw then inl (string_too_long 5000)
    else if forallb isspace raw then
      inl (value_error "Text cannot be empty or only whitespace")
    else inr (strip raw).
Proof.
  rewrite validate_text_eq. now rewrite is_empty_len, strip_blank.
Qed.

(** X3.  The outcome of each field, case by case, in terms of the received
    string.  It is [string_unicode] exactly when the string is not
    well-formed Unicode; otherwise [string_too_short] exactly when it is
    empty, [string_too_long] exactly when it has more than 200 (5000)
    characters, blank or not; otherwise the validator's [ValueError] for an
    empty trimmed form exactly when it is all whitespace; otherwise it is
    accepted with its trimmed form.  No other error is reported: the
    validators' own error for a trimmed form above the bound never is. *)
Theorem validation_errors (raw : pystr) :
  ((ChatCreate.validate_title raw = inl string_unicode
    <-> valid_str raw = false)
   /\ (ChatCreate.validate_title raw = inl (string_too_short 1)
       <-> valid_str raw = true /\ raw = [])
   /\ (ChatCreate.validate_title raw = inl (string_too_long 200)
       <-> valid_str raw = true /\ 200 < len raw)
   /\ (ChatCreate.validate_title raw
       = inl (value_error "Title cannot be empty or only whitespace")
       <-> valid_str raw = true /\ raw <> [] /\ len raw <= 200
           /\ forallb isspace raw = true)
   /\ (forall t, ChatCreate.validate_title raw = inr t
                 <-> valid_str raw = true /\ len raw <= 200
                     /\ forallb isspace raw = false /\ t = strip raw)
   /\ (forall e, ChatCreate.validate_title raw = inl e ->
                 e = string_unicode \/ e = string_too_short 1
                 \/ e = string_too_long 200
                 \/ e = value_error "Title cannot be empty or only whitespace"))
  /\
  ((MessageCreate.validate_text raw = inl string_unicode
    <-> valid_str raw = false)
   /\ (MessageCreate.validate_text raw = inl (string_too_short 1)
       <-> valid_str raw = true /\ raw = [])
   /\ (MessageCreate.validate_text raw = inl (string_too_long 5000)
       <-> valid_str raw = true /\ 5000 < len raw)
   /\ (MessageCreate.validate_text raw
       = inl (value_error "Text cannot be empty or only whitespace")
       <-> valid_str raw = true /\ raw <> [] /\ len raw <= 5000
           /\ forallb isspace raw = true)
   /\ (forall t, MessageCreate.validate_text raw = inr t
                 <-> valid_str raw = true /\ len raw <= 5000
                     /\ forallb isspace raw = false /\ t = strip raw)
   /\ (forall e, MessageCreate.validate_text raw = inl e ->
                 e = string_unicode \/ e = string_too_short 1
                 \/ e = string_too_long 5000
                 \/ e = value_error "Text cannot be empty or only whitespace")).
Proof.
  rewrite validate_title_cases, validate_text_cases.
  destruct (valid_str raw); cbn [negb]; [|settle_error_lines].
  destruct raw as [|c r]; cbn [is_empty].
  { cbn [forallb]. settle_error_lines. }
  assert (Hne : c :: r <> []) by discriminate.
  assert (Hlen : 1 <= len (c :: r))
    by (unfold len; simpl List.length; lia).
  split.
  - destruct (Z.ltb_spec 200 (len (c :: r)));
      [|destruct (forallb isspace (c :: r))]; settle_error_lines.
  - destruct (Z.ltb_spec 5000 (len (c :: r)));
      [|destruct (forallb isspace (c :: r))]; settle_error_lines.
Qed.

(** A blank title, and a text of 5001 times ['a']. *)
Lemma validation_errors_witness :
  ChatCreate.validate_title (of_string "   ")
  = inl (value_error "Title cannot be empty or only whitespace")
  /\ MessageCreate.validate_text (97 :: repeat 97 5000)
     = inl (string_too_long 5000).
Proof.
  split.
  - destruct (validation_errors (of_string "   "))
      as [(_ & _ & _ & H & _) _].
    apply H. vm_compute. repeat split; discriminate.
  - destruct (validation_errors (97 :: repeat 97 5000))
      as [_ (_ & _ & H & _)].
    apply H. vm_compute. split; reflexivity.
Defined.

(** ** The scenarios of the specification *)

Example scenario_trimmed_title :
  response_of (POST_chats (of_string "  Trimmed Title  ") empty_store 10)
  = {| status_code := 201;
       content := ChatResponse 1 (of_string "Trimmed Title") 10 |}.
Proof. reflexivity. Qed.

Example scenario_title_201_characters :
  status_code (response_of (POST_chats (repeat 97 201) empty_store 10)) = 422.
Proof. vm_compute. reflexivity. Qed.

Example scenario_title_200_characters :
  response_of (POST_chats (repeat 97 200) empty_store 10)
  = {| status_code := 201; content := ChatResponse 1 (repeat 97 200) 10 |}.
Proof. vm_compute. reflexivity. Qed.

(** [three_messages] is the store after the chat is created and the three
    messages are posted, one request after the other. *)
Example scenario_three_posts :
  let s1 := store_after (POST_chats (of_string "Test Chat") empty_store 10) in
  let s2 := store_after (POST_messages 1 (of_string "First") s1 11) in
  let s3 := store_after (POST_messages 1 (of_string "Second") s2 12) in
  store_after (POST_messages 1 (of_string "Third") s3 13) = three_messages.
Proof. reflexivity. Qed.

Example scenario_newest_first (tie : Tie) :
  map Message.text
    (retrieved (content (response_of (GET_chat tie 1 20 0 three_messages 14))))
  = [of_string "Third"; of_string "Second"; of_string "First"].
Proof. reflexivity. Qed.

(** ** Ordering and paging *)

Section Ordering.

Variable tie : Tie.

Lemma insert_desc_perm (m : Message.t) (l : list Message.t) :
  Permutation (insert_desc tie m l) (m :: l).
Proof.
  induction l as [|x l IH]; simpl; [reflexivity|].
  destruct (before tie m x); [reflexivity|].
  rewrite IH. apply perm_swap.
Qed.

Lemma order_by_perm (l : list Message.t) :
  Permutation (order_by_created_at_desc tie l) l.
Proof.
  induction l as [|m l IH]; simpl; [reflexivity|].
  rewrite insert_desc_perm. now constructor.
Qed.

Lemma insert_desc_Forall (P : Message.t -> Prop) m l :
  P m -> Forall P l -> Forall P (insert_desc tie m l).
Proof.
  intros Hm Hl. eapply Permutation_Forall.
  - symmetry. apply insert_desc_perm.
  - now constructor.
Qed.

Lemma before_desc (m x : Message.t) : before tie m x = true -> desc m x.
Proof.
  unfold before, desc. intros H. apply orb_prop in H as [H|H].
  - apply Z.ltb_lt in H. lia.
  - apply andb_prop in H as [H _]. apply Z.eqb_eq in H. lia.
Qed.

Lemma not_before_desc (m x : Message.t) : before tie m x = false -> desc x m.
Proof.
  unfold before, desc. intros H. apply orb_false_iff in H as [H _].
  apply Z.ltb_ge in H. exact H.
Qed.

Lemma insert_desc_sorted (m : Message.t) (l : list Message.t) :
  StronglySorted desc l -> StronglySorted desc (insert_desc tie m l).
Proof.
  induction 1 as [|x l Hs IH Hx]; simpl.
  - repeat constructor.
  - destruct (before tie m x) eqn:E.
    + apply before_desc in E.
      constructor; [now constructor|].
      constructor; [assumption|].
      eapply Forall_impl; [|exact Hx].
      unfold desc in *. intros a Ha. lia.
    + apply not_before_desc in E.
      constructor; [exact IH|].
      now apply insert_desc_Forall.
Qed.

Lemma order_by_sorted (l : list Message.t) :
  StronglySorted desc (order_by_created_at_desc tie l).
Proof.
  induction l as [|m l IH]; simpl; [constructor|].
  now apply insert_desc_sorted.
Qed.

(** A page and what surrounds it make up the whole result again. *)
Lemma limit_offset_split {A : Type} (limit offset : Z) (l : list A) :
  l = firstn (Z.to_nat offset) l
      ++ limit_offset limit offset l
      ++ skipn (Z.to_nat limit) (skipn (Z.to_nat offset) l).
Proof.
  unfold limit_offset. now rewrite !firstn_skipn.
Qed.

Lemma limit_offset_length {A : Type} (limit offset : Z) (l : list A) :
  0 <= limit -> 0 <= offset ->
  Z.of_nat (List.length (limit_offset limit offset l))
  = Z.min limit (Z.max (Z.of_nat (List.length l) - offset) 0).
Proof.
  intros Hl Ho. unfold limit_offset.
  rewrite length_firstn, length_skipn. lia.
Qed.

Lemma limit_offset_incl {A : Type} (limit offset : Z) (l : list A) (a : A) :
  In a (limit_offset limit offset l) -> In a l.
Proof.
  intros H. rewrite (limit_offset_split limit offset l).
  apply in_or_app. right. apply in_or_app. now left.
Qed.

End Ordering.

(** ** Ranges *)

Lemma int32_iff (z : Z) : int32 z = true <-> -2147483648 <= z <= 2147483647.
Proof. unfold int32. rewrite andb_true_iff, !Z.leb_le. tauto. Qed.

Lemma int64_iff (z : Z) :
  int64 z = true <-> -9223372036854775808 <= z <= 9223372036854775807.
Proof. unfold int64. rewrite andb_true_iff, !Z.leb_le. tauto. Qed.

(** A chat id that selects a row is a 32-bit integer, and the row has it
    as key and is in the table. *)
Lemma select_chats_In (d : Database) (chat_id : Z) (row : chats_row) :
  In row (select_chats chat_id d) ->
  int32 chat_id = true /\ chats_id row = chat_id /\ In row (chats d).
Proof.
  unfold select_chats. intros H. apply filter_In in H as [Hin H].
  unfold chat_has_id in H. apply andb_prop in H as [Hr He].
  apply Z.eqb_eq in He. now repeat split.
Qed.

Lemma select_chats_row (d : Database) (chat_id : Z) (row : chats_row) :
  select_chats chat_id d = [row] ->
  int32 chat_id = true /\ chats_id row = chat_id /\ In row (chats d).
Proof.
  intros H. apply select_chats_In. rewrite H. now left.
Qed.

Lemma select_chats_out_of_range (d : Database) (chat_id : Z) :
  int32 chat_id = false -> select_chats chat_id d = [].
Proof.
  intros H. unfold select_chats, chat_has_id. rewrite H.
  induction (chats d) as [|r l IH]; [reflexivity|exact IH].
Qed.

Lemma select_chats_in_range (d : Database) (chat_id : Z) :
  int32 chat_id = true ->
  select_chats chat_id d = filter (fun r => chats_id r =? chat_id) (chats d).
Proof.
  intros H. unfold select_chats. apply filter_ext. intros r.
  unfold chat_has_id. now rewrite H.
Qed.

(** ** The service on a session *)

Section Service.

Variable s : Session.
Variable chat_id : Z.

(** The chat is there: both statements go out, and the object comes back
    with its whole collection. *)
Lemma get_chat_by_id_found (load_messages : bool) (row : chats_row) :
  select_chats chat_id (conn s) = [row] ->
  ChatService.get_chat_by_id chat_id load_messages s
  = (inr (Some (Chat_of row (select_messages chat_id (conn s)))),
     logged s [SELECT_chats chat_id; SELECT_messages_IN chat_id]).
Proof.
  intros H. destruct (select_chats_row _ _ _ H) as (Hr & _).
  unfold ChatService.get_chat_by_id, execute_select_Chat. rewrite Hr.
  unfold bind, send, read.
  cbn. rewrite H. cbn. unfold logged. now rewrite <- app_assoc.
Qed.

(** The chat is not there. *)
Lemma get_chat_by_id_absent (load_messages : bool) :
  int32 chat_id = true ->
  select_chats chat_id (conn s) = [] ->
  ChatService.get_chat_by_id chat_id load_messages s
  = (inr None, logged s [SELECT_chats chat_id]).
Proof.
  intros Hr H.
  unfold ChatService.get_chat_by_id, execute_select_Chat. rewrite Hr.
  unfold bind, send, read.
  cbn. rewrite H. reflexivity.
Qed.

(** The id is no 32-bit integer: the driver refuses it. *)
Lemma get_chat_by_id_out_of_range (load_messages : bool) :
  int32 chat_id = false ->
  ChatService.get_chat_by_id chat_id load_messages s
  = (inl (SQLAlchemyError "DBAPIError"), s).
Proof.
  intros Hr.
  unfold ChatService.get_chat_by_id, execute_select_Chat. rewrite Hr.
  reflexivity.
Qed.

(** The primary key is broken: more than one row has the key. *)
Lemma get_chat_by_id_multiple (load_messages : bool) r1 r2 rows :
  select_chats chat_id (conn s) = r1 :: r2 :: rows ->
  ChatService.get_chat_by_id chat_id load_messages s
  = (inl (SQLAlchemyError "MultipleResultsFound"),
     logged s [SELECT_chats chat_id; SELECT_messages_IN chat_id]).
Proof.
  intros H.
  assert (Hr : int32 chat_id = true).
  { apply (select_chats_In (conn s) chat_id r1). rewrite H. now left. }
  unfold ChatService.get_chat_by_id, execute_select_Chat. rewrite Hr.
  unfold bind, send, read.
  cbn. rewrite H. cbn. unfold logged. now rewrite <- app_assoc.
Qed.

End Service.

(** ** The page *)

(** The page [get_chat_with_messages] selects. *)
Lemma get_chat_with_messages_found (tie : Tie) (s : Session)
    (chat_id limit offset : Z) (row : chats_row) :
  select_chats chat_id (conn s) = [row] ->
  0 <= limit <= 9223372036854775807 ->
  0 <= offset <= 9223372036854775807 ->
  let collection := select_messages chat_id (conn s) in
  let page :=
    limit_offset limit offset (order_by_created_at_desc tie collection) in
  ChatService.get_chat_with_messages tie chat_id limit offset s
  = (inr (Chat_of row page),
     {| conn := conn s; now := now s; new := new s;
        deleted := deleted s ++ map Message.id (outside page collection);
        log := log s ++ [SELECT_chats chat_id; SELECT_messages_IN chat_id;
                         SELECT_messages_page chat_id limit offset] |}).
Proof.
  intros H Hl Ho collection page.
  destruct (select_chats_row _ _ _ H) as (Hr & _).
  unfold ChatService.get_chat_with_messages, bind.
  rewrite (get_chat_by_id_found s chat_id false row H).
  unfold execute_select_Message. rewrite Hr.
  replace (int64 limit) with true by (symmetry; apply int64_iff; lia).
  replace (int64 offset) with true by (symmetry; apply int64_iff; lia).
  cbn [andb negb]. unfold bind, send, read.
  replace (limit <? 0) with false by (symmetry; apply Z.ltb_ge; lia).
  replace (offset <? 0) with false by (symmetry; apply Z.ltb_ge; lia).
  cbn. now rewrite <- app_assoc.
Qed.

(** An offset that is no 64-bit integer: the page query is refused. *)
Lemma get_chat_with_messages_refused (tie : Tie) (s : Session)
    (chat_id limit offset : Z) (row : chats_row) :
  select_chats chat_id (conn s) = [row] ->
  int64 limit && int64 offset = false ->
  ChatService.get_chat_with_messages tie chat_id limit offset s
  = (inl (SQLAlchemyError "DBAPIError"),
     logged s [SELECT_chats chat_id; SELECT_messages_IN chat_id]).
Proof.
  intros H Hb.
  destruct (select_chats_row _ _ _ H) as (Hr & _).
  unfold ChatService.get_chat_with_messages, bind.
  rewrite (get_chat_by_id_found s chat_id false row H).
  unfold execute_select_Message. rewrite Hr. cbn [andb].
  rewrite Hb. reflexivity.
Qed.




(** ** Flush and commit *)

Lemma flush_all_deleted_run (ids : list Z) (s : Session) :
  flush_all_deleted ids s
  = (inr tt,
     {| conn := delete_all_messages ids (conn s); now := now s;
        new := new s; deleted := deleted s;
        log := log s ++ map DELETE_messages ids |}).
Proof.
  revert s. induction ids as [|id ids IH]; intros s; simpl.
  - unfold ret. destruct s; simpl. now rewrite app_nil_r.
  - unfold bind, send. rewrite IH. cbn. now rewrite <- app_assoc.
Qed.

(** With nothing added, a flush sends the pending deletes and nothing else. *)
Lemma flush_run (s : Session) :
  new s = [] ->
  flush s
  = (inr [],
     {| conn := delete_all_messages (deleted s) (conn s); now := now s;
        new := []; deleted := [];
        log := log s ++ map DELETE_messages (deleted s) |}).
Proof.
  intros H. unfold flush, bind. rewrite H. cbn.
  rewrite flush_all_deleted_run. reflexivity.
Qed.

Lemma commit_run (s : Session) :
  new s = [] ->
  commit s
  = (inr tt,
     {| conn := delete_all_messages (deleted s) (conn s); now := now s;
        new := []; deleted := [];
        log := log s ++ map DELETE_messages (deleted s) ++ [COMMIT] |}).
Proof.
  intros H. unfold commit, bind. rewrite (flush_run s H).
  unfold send. cbn [conn now new deleted log]. now rewrite <- app_assoc.
Qed.

Lemma rollback_same (store : Database) (s : Session) :
  chats_id_seq (conn s) = chats_id_seq store ->
  messages_id_seq (conn s) = messages_id_seq store ->
  rollback store s = store.
Proof.
  intros H1 H2. unfold rollback. rewrite H1, H2. now destruct store.
Qed.

(** ** Reading a chat *)

Lemma get_chat_params_nil (limit offset : Z) :
  routers.get_chat_params limit offset = [] <->
  1 <= limit <= 100 /\ 0 <= offset.
Proof.
  unfold routers.get_chat_params, Query.
  destruct (Z.ltb_spec 100 limit), (Z.ltb_spec limit 1),
    (Z.ltb_spec offset 0); cbn [app]; split;
    try discriminate; try lia; try reflexivity.
  all: intros [? ?]; lia.
Qed.

(** What a well-formed [GET] of an existing chat does: it answers with the
    page, and at the commit the messages of the chat that are not on the
    page are deleted from the store. *)
Lemma GET_chat_outcome (tie : Tie) (store : Database)
    (clock chat_id limit offset : Z) (row : chats_row) :
  select_chats chat_id store = [row] ->
  1 <= limit <= 100 -> 0 <= offset <= 9223372036854775807 ->
  let collection := select_messages chat_id store in
  let page :=
    limit_offset limit offset (order_by_created_at_desc tie collection) in
  let orphans := map Message.id (outside page collection) in
  GET_chat tie chat_id limit offset store clock
  = ({| status_code := 200; content := ChatWithMessages (Chat_of row page) |},
     delete_all_messages orphans store,
     [SELECT_chats chat_id; SELECT_messages_IN chat_id;
      SELECT_messages_page chat_id limit offset]
     ++ map DELETE_messages orphans ++ [COMMIT]).
Proof.
  intros Hrow Hl Ho collection page orphans.
  unfold GET_chat.
  rewrite (proj2 (get_chat_params_nil limit offset)) by lia.
  unfold serve, get_db, routers.get_chat, bind.
  rewrite (get_chat_with_messages_found tie (fresh store clock) chat_id limit
             offset row Hrow) by lia.
  unfold ret. rewrite commit_run by reflexivity.
  reflexivity.
Qed.

(** C3 (fails on the code).  The claim: a [GET] of an existing chat with
    [limit] and [offset] in range leaves the store as it was.  On a chat with
    three messages, [limit = 2] answers 200 with the two latest messages, and
    at the commit the request deletes the third from the store: loading the
    chat loaded its whole collection, assigning the page to [chat.messages]
    took the other message out of it, and the relationship deletes
    orphans. *)
Theorem get_chat_deletes_outside_page (tie : Tie) :
  select_chats 1 three_messages
  = [ {| chats_id := 1; chats_title := of_string "Test Chat";
         chats_created_at := 10 |} ]
  /\ GET_chat tie 1 2 0 three_messages 14
     = ({| status_code := 200;
           content :=
             ChatWithMessages
               (Chat.mk 1 (of_string "Test Chat") 10
                  [ Message.mk 3 1 (of_string "Third") 13;
                    Message.mk 2 1 (of_string "Second") 12 ]) |},
        {| chats := chats three_messages;
           messages := [ Message.mk 2 1 (of_string "Second") 12;
                         Message.mk 3 1 (of_string "Third") 13 ];
           chats_id_seq := 1;
           messages_id_seq := 3 |},
        [SELECT_chats 1; SELECT_messages_IN 1; SELECT_messages_page 1 2 0;
         DELETE_messages 1; COMMIT])
  /\ snd (fst (GET_chat tie 1 2 0 three_messages 14)) <> three_messages
  /\ In (Message.mk 1 1 (of_string "First") 11) (messages three_messages)
  /\ ~ In (Message.mk 1 1 (of_string "First") 11)
         (messages (snd (fst (GET_chat tie 1 2 0 three_messages 14)))).
Proof.
  assert (E : GET_chat tie 1 2 0 three_messages 14
     = ({| status_code := 200;
           content :=
             ChatWithMessages
               (Chat.mk 1 (of_string "Test Chat") 10
                  [ Message.mk 3 1 (of_string "Third") 13;
                    Message.mk 2 1 (of_string "Second") 12 ]) |},
        {| chats := chats three_messages;
           messages := [ Message.mk 2 1 (of_string "Second") 12;
                         Message.mk 3 1 (of_string "Third") 13 ];
           chats_id_seq := 1;
           messages_id_seq := 3 |},
        [SELECT_chats 1; SELECT_messages_IN 1; SELECT_messages_page 1 2 0;
         DELETE_messages 1; COMMIT])) by reflexivity.
  split; [reflexivity|]. split; [exact E|]. rewrite E. cbn [fst snd].
  split; [discriminate|].
  split; [now left|].
  cbn. intros [H|[H|[]]]; discriminate.
Qed.

(** ** Requests that are refused *)

(** C8.  A [GET] whose [limit] is outside [1, 100] or whose [offset] is
    negative is answered 422 with the validation errors, whether or not the
    chat exists; nothing is sent to the store, and it is never a 404. *)
Theorem get_chat_out_of_range (tie : Tie) (chat_id limit offset : Z)
    (store : Database) (clock : Z) :
  limit < 1 \/ 100 < limit \/ offset < 0 ->
  exists errors : list ErrorDetails,
    errors <> []
    /\ GET_chat tie chat_id limit offset store clock
       = ({| status_code := 422; content := detail_errors errors |},
          store, []).
Proof.
  intros H. unfold GET_chat, routers.get_chat_params, Query.
  destruct (Z.ltb_spec 100 limit), (Z.ltb_spec limit 1),
    (Z.ltb_spec offset 0); cbn [app];
    try (eexists; split; [|reflexivity]; discriminate).
  lia.
Qed.

Lemma get_chat_out_of_range_witness :
  exists errors : list ErrorDetails,
    errors <> []
    /\ GET_chat first_met 99999 0 0 three_messages 14
       = ({| status_code := 422; content := detail_errors errors |},
          three_messages, []).
Proof.
  apply (get_chat_out_of_range first_met 99999 0 0 three_messages 14).
  left. lia.
Defined.

(** A text that fails validation never reaches the endpoint: the chat is
    not looked up, nothing is sent to the store, and the store is as
    before.  The answer is the one of the handler for validation errors. *)
Lemma POST_messages_rejected (chat_id : Z) (raw : pystr) (store : Database)
    (clock : Z) (e : ErrorType) :
  MessageCreate.validate_text raw = inl e ->
  POST_messages chat_id raw store clock
  = (exception_handler
       (RequestValidationError [ {| loc := "text"; type := e |} ]),
     store, []).
Proof.
  intros H. unfold POST_messages, MessageCreate.model_validate.
  now rewrite H.
Qed.

Lemma POST_chats_rejected (raw : pystr) (store : Database) (clock : Z)
    (e : ErrorType) :
  ChatCreate.validate_title raw = inl e ->
  POST_chats raw store clock
  = (exception_handler
       (RequestValidationError [ {| loc := "title"; type := e |} ]),
     store, []).
Proof.
  intros H. unfold POST_chats, ChatCreate.model_validate.
  now rewrite H.
Qed.

(** C6 (fails on the code).  The claim: a text that fails validation is
    reported as a validation error, whatever the chat id.  A blank text
    fails validation in the validator, with a [ValueError]; the handler for
    validation errors cannot render that error, and the request is answered
    500 with the message of an internal error, for a chat that exists as for
    one that does not.  Validation does come first: the chat is not looked
    up and nothing is sent to the store.  An empty text, refused by the
    declared [min_length], is answered 422. *)
Theorem blank_text_internal_error :
  MessageCreate.validate_text (of_string "   ")
  = inl (value_error "Text cannot be empty or only whitespace")
  /\ POST_messages 99999 (of_string "   ") three_messages 14
     = ({| status_code := 500; content := detail "Internal server error" |},
        three_messages, [])
  /\ POST_messages 1 (of_string "   ") three_messages 14
     = ({| status_code := 500; content := detail "Internal server error" |},
        three_messages, [])
  /\ POST_messages 99999 [] three_messages 14
     = ({| status_code := 422;
           content := detail_errors
                        [ {| loc := "text"; type := string_too_short 1 |} ] |},
        three_messages, []).
Proof. repeat split. Qed.

(** ** Chats that are not there *)

Lemma delete_chat_absent (s : Session) (chat_id : Z) :
  int32 chat_id = true ->
  select_chats chat_id (conn s) = [] ->
  ChatService.delete_chat chat_id s
  = (inr false, logged s [SELECT_chats chat_id]).
Proof.
  intros Hr H. unfold ChatService.delete_chat, bind.
  now rewrite (get_chat_by_id_absent s chat_id false Hr H).
Qed.

Lemma create_message_absent (s : Session) (chat_id : Z)
    (message_data : MessageCreate.t) :
  int32 chat_id = true ->
  select_chats chat_id (conn s) = [] ->
  ChatService.create_message chat_id message_data s
  = (inl (ChatNotFoundException chat_id), logged s [SELECT_chats chat_id]).
Proof.
  intros Hr H. unfold ChatService.create_message, bind.
  now rewrite (get_chat_by_id_absent s chat_id false Hr H).
Qed.

Lemma DELETE_chat_absent (chat_id : Z) (store : Database) (clock : Z) :
  int32 chat_id = true ->
  select_chats chat_id store = [] ->
  DELETE_chat chat_id store clock
  = ({| status_code := 404;
        content := detail (ChatNotFoundException_detail chat_id) |},
     store, [SELECT_chats chat_id; ROLLBACK]).
Proof.
  intros Hr H.
  unfold DELETE_chat, serve, get_db, routers.delete_chat, bind.
  rewrite delete_chat_absent by assumption.
  cbn. now rewrite rollback_same.
Qed.

(** An id that is no 32-bit integer: the lookup is refused, and the
    request is rolled back. *)
Lemma DELETE_chat_out_of_range (chat_id : Z) (store : Database) (clock : Z) :
  int32 chat_id = false ->
  DELETE_chat chat_id store clock
  = ({| status_code := 500; content := detail "Internal server error" |},
     store, [ROLLBACK]).
Proof.
  intros Hr.
  unfold DELETE_chat, serve, get_db, routers.delete_chat,
    ChatService.delete_chat, bind.
  rewrite (get_chat_by_id_out_of_range (fresh store clock) chat_id false Hr).
  cbn. now rewrite rollback_same.
Qed.







(** ** Deleting a chat *)

Lemma DELETE_chat_found (chat_id : Z) (store : Database) (clock : Z)
    (row : chats_row) :
  select_chats chat_id store = [row] ->
  DELETE_chat chat_id store clock
  = ({| status_code := 204; content := no_content |},
     delete_chats chat_id store,
     [SELECT_chats chat_id; SELECT_messages_IN chat_id;
      DELETE_chats chat_id; COMMIT]).
Proof.
  intros H.
  unfold DELETE_chat, serve, get_db, routers.delete_chat,
    ChatService.delete_chat, bind.
  rewrite (get_chat_by_id_found (fresh store clock) chat_id false row H).
  reflexivity.
Qed.

(** ** What a response can carry *)

Lemma exception_handler_retrieved (exc : Exception) :
  retrieved (content (exception_handler exc)) = [].
Proof.
  destruct exc as [id | errors | name]; cbn; try reflexivity.
  now destruct (forallb renders errors).
Qed.

(** A message in the response of a served request was returned by the
    endpoint. *)
Lemma serve_retrieved (status : Z) (endpoint : M Content) (store : Database)
    (clock : Z) (m : Message.t) :
  In m (retrieved (content (fst (fst (serve status endpoint store clock))))) ->
  exists (body : Content) (s' : Session),
    endpoint (fresh store clock) = (inr body, s') /\ In m (retrieved body).
Proof.
  unfold serve, get_db.
  destruct (endpoint (fresh store clock)) as [[e|body] s1].
  - cbn [fst snd]. rewrite exception_handler_retrieved. intros [].
  - destruct (commit s1) as [[e|u] s2]; cbn [fst snd].
    + rewrite exception_handler_retrieved. intros [].
    + intros H. now exists body, s1.
Qed.

(** The messages [get_chat_with_messages] returns are rows of [messages]
    that reference the chat asked for. *)
Lemma get_chat_with_messages_retrieved (tie : Tie) (s s' : Session)
    (chat_id limit offset : Z) (chat : Chat.t) (m : Message.t) :
  ChatService.get_chat_with_messages tie chat_id limit offset s
  = (inr chat, s') ->
  In m (Chat.messages chat) ->
  In m (messages (conn s)) /\ in_chat chat_id m = true.
Proof.
  unfold ChatService.get_chat_with_messages, bind.
  destruct (int32 chat_id) eqn:Hr;
    [|rewrite (get_chat_by_id_out_of_range s chat_id false Hr); discriminate].
  destruct (select_chats chat_id (conn s)) as [|r [|r2 rows]] eqn:E.
  - rewrite (get_chat_by_id_absent s chat_id false Hr E). discriminate.
  - rewrite (get_chat_by_id_found s chat_id false r E).
    unfold execute_select_Message. rewrite Hr. cbn [andb].
    destruct (int64 limit && int64 offset); cbn [negb]; [|discriminate].
    unfold bind, send, read.
    destruct ((limit <? 0) || (offset <? 0)); [discriminate|].
    cbn. intros H. injection H as <- _. cbn.
    intros Hm. apply limit_offset_incl in Hm.
    apply (Permutation_in _ (order_by_perm tie _)) in Hm.
    now apply filter_In in Hm.
  - rewrite (get_chat_by_id_multiple s chat_id false r r2 rows E).
    discriminate.
Qed.

(** The message [create_message] returns references the chat it was posted
    to, and that chat exists. *)
Lemma create_message_retrieved (store : Database) (clock chat_id : Z)
    (message_data : MessageCreate.t) (m : Message.t) (s' : Session) :
  ChatService.create_message chat_id message_data (fresh store clock)
  = (inr m, s') ->
  Message.chat_id m = chat_id /\ select_chats chat_id store <> [].
Proof.
  unfold ChatService.create_message, bind.
  destruct (int32 chat_id) eqn:Hr;
    [|rewrite (get_chat_by_id_out_of_range (fresh store clock) chat_id false
                 Hr); discriminate].
  destruct (select_chats chat_id store) as [|r [|r2 rows]] eqn:E.
  - rewrite (get_chat_by_id_absent (fresh store clock) chat_id false Hr E).
    discriminate.
  - rewrite (get_chat_by_id_found (fresh store clock) chat_id false r E).
    unfold add, flush, bind. cbn.
    unfold bind, read. cbn. rewrite E.
    destruct (has_nul (MessageCreate.text message_data)
              || (5000 <? len (MessageCreate.text message_data))
              || negb (int32 (messages_id_seq store + 1)));
      [discriminate|].
    cbn. unfold bind, send, read. cbn.
    rewrite filter_app. cbn. unfold message_has_id at 2. cbn.
    rewrite Z.eqb_refl.
    destruct (filter _ (messages store)) as [|x [|y rest]]; cbn;
      try discriminate.
    intros H. injection H as <- _. cbn. split; [reflexivity|discriminate].
  - rewrite (get_chat_by_id_multiple (fresh store clock) chat_id false
               r r2 rows E).
    discriminate.
Qed.

Lemma delete_chats_select_chats (chat_id : Z) (d : Database) :
  select_chats chat_id (delete_chats chat_id d) = [].
Proof.
  unfold select_chats, delete_chats; cbn.
  induction (chats d) as [|r l IH]; cbn; [reflexivity|].
  destruct (chat_has_id chat_id r) eqn:E; cbn; [exact IH|].
  now rewrite E.
Qed.

Lemma delete_chats_select_messages (chat_id : Z) (d : Database) :
  select_messages chat_id (delete_chats chat_id d) = [].
Proof.
  unfold select_messages, delete_chats; cbn.
  induction (messages d) as [|m l IH]; cbn; [reflexivity|].
  destruct (in_chat chat_id m) eqn:E; cbn; [exact IH|].
  now rewrite E.
Qed.

(** The rows a delete leaves are those of the other chats. *)
Lemma delete_chats_messages (chat_id : Z) (d : Database) (m : Message.t) :
  In m (messages (delete_chats chat_id d)) <->
  In m (messages d) /\ Message.chat_id m <> chat_id.
Proof.
  unfold delete_chats; cbn. rewrite filter_In. unfold in_chat.
  destruct (Z.eqb_spec (Message.chat_id m) chat_id); cbn; intuition congruence.
Qed.

Lemma delete_chats_chats (chat_id : Z) (d : Database) (r : chats_row) :
  int32 chat_id = true ->
  In r (chats (delete_chats chat_id d)) <->
  In r (chats d) /\ chats_id r <> chat_id.
Proof.
  intros Hr. unfold delete_chats; cbn. rewrite filter_In.
  unfold chat_has_id. rewrite Hr.
  destruct (Z.eqb_spec (chats_id r) chat_id); cbn; intuition congruence.
Qed.

(** No request on the store a delete leaves returns a message of the
    deleted chat. *)
Lemma handle_after_delete (tie : Tie) (chat_id : Z) (store : Database)
    (req : Request) (clock : Z) (m : Message.t) :
  In m (retrieved
          (content
             (fst (fst (handle tie req (delete_chats chat_id store) clock))))) ->
  Message.chat_id m <> chat_id.
Proof.
  destruct req as [title | cid raw | cid limit offset | cid]; cbn [handle].
  - unfold POST_chats.
    destruct (ChatCreate.model_validate title) as [errors|chat_data];
      [unfold reject; cbn [fst]; rewrite exception_handler_retrieved;
       intros []|].
    intros H. apply serve_retrieved in H as (body & s' & Hrun & Hin).
    unfold routers.create_chat, bind in Hrun.
    destruct (ChatService.create_chat _ _) as [[e|c] s1];
      [discriminate|].
    injection Hrun as <- _. destruct Hin.
  - unfold POST_messages.
    destruct (MessageCreate.model_validate raw) as [errors|message_data];
      [unfold reject; cbn [fst]; rewrite exception_handler_retrieved;
       intros []|].
    intros H. apply serve_retrieved in H as (body & s' & Hrun & Hin).
    unfold routers.create_message, bind in Hrun.
    destruct (ChatService.create_message _ _ _) as [[e|m'] s1] eqn:E;
      [discriminate|].
    injection Hrun as <- _. destruct Hin as [<-|[]].
    apply create_message_retrieved in E as [-> Hex].
    intros ->. apply Hex, delete_chats_select_chats.
  - unfold GET_chat.
    destruct (routers.get_chat_params _ _);
      [|unfold reject; cbn [fst]; rewrite exception_handler_retrieved;
        intros []].
    intros H. apply serve_retrieved in H as (body & s' & Hrun & Hin).
    unfold routers.get_chat, bind in Hrun.
    destruct (ChatService.get_chat_with_messages _ _ _ _ _)
      as [[e|chat] s1] eqn:E; [discriminate|].
    injection Hrun as <- _.
    destruct (get_chat_with_messages_retrieved _ _ _ _ _ _ _ _ E Hin)
      as [Hrow _].
    now apply delete_chats_messages in Hrow.
  - unfold DELETE_chat.
    intros H. apply serve_retrieved in H as (body & s' & Hrun & Hin).
    unfold routers.delete_chat, bind in Hrun.
    destruct (ChatService.delete_chat _ _) as [[e|[|]] s1];
      try discriminate.
    injection Hrun as <- _. destruct Hin.
Qed.

Lemma get_chat_with_messages_absent (tie : Tie) (s : Session)
    (chat_id limit offset : Z) :
  int32 chat_id = true ->
  select_chats chat_id (conn s) = [] ->
  ChatService.get_chat_with_messages tie chat_id limit offset s
  = (inl (ChatNotFoundException chat_id), logged s [SELECT_chats chat_id]).
Proof.
  intros Hr H. unfold ChatService.get_chat_with_messages, bind.
  now rewrite (get_chat_by_id_absent s chat_id false Hr H).
Qed.

Lemma GET_chat_absent (tie : Tie) (chat_id limit offset : Z)
    (store : Database) (clock : Z) :
  int32 chat_id = true ->
  select_chats chat_id store = [] ->
  1 <= limit <= 100 -> 0 <= offset ->
  GET_chat tie chat_id limit offset store clock
  = ({| status_code := 404;
        content := detail (ChatNotFoundException_detail chat_id) |},
     store, [SELECT_chats chat_id; ROLLBACK]).
Proof.
  intros Hr H Hl Ho. unfold GET_chat.
  rewrite (proj2 (get_chat_params_nil limit offset) (conj Hl Ho)).
  unfold serve, get_db, routers.get_chat, bind.
  rewrite get_chat_with_messages_absent by assumption.
  cbn. now rewrite rollback_same.
Qed.

Lemma DELETE_chat_multiple (chat_id : Z) (store : Database) (clock : Z)
    (r1 r2 : chats_row) (rows : list chats_row) :
  select_chats chat_id store = r1 :: r2 :: rows ->
  DELETE_chat chat_id store clock
  = ({| status_code := 500; content := detail "Internal server error" |},
     store,
     [SELECT_chats chat_id; SELECT_messages_IN chat_id; ROLLBACK]).
Proof.
  intros E.
  unfold DELETE_chat, serve, get_db, routers.delete_chat,
    ChatService.delete_chat, bind.
  rewrite (get_chat_by_id_multiple (fresh store clock) chat_id false
             r1 r2 rows E).
  cbn. now rewrite rollback_same.
Qed.

(** The four courses of a delete. *)
Lemma DELETE_chat_cases (chat_id : Z) (store : Database) (clock : Z) :
  (exists row, select_chats chat_id store = [row]
               /\ DELETE_chat chat_id store clock
                  = ({| status_code := 204; content := no_content |},
                     delete_chats chat_id store,
                     [SELECT_chats chat_id; SELECT_messages_IN chat_id;
                      DELETE_chats chat_id; COMMIT]))
  \/ (select_chats chat_id store <> [] /\
      exists sent,
        DELETE_chat chat_id store clock
        = ({| status_code := 500; content := detail "Internal server error" |},
           store, sent))
  \/ (select_chats chat_id store = [] /\
      exists response sent,
        DELETE_chat chat_id store clock = (response, store, sent)
        /\ (status_code response = 404 \/ status_code response = 500)).
Proof.
  destruct (int32 chat_id) eqn:Hr.
  - destruct (select_chats chat_id store) as [|r1 [|r2 rows]] eqn:E.
    + right; right. split; [reflexivity|].
      rewrite (DELETE_chat_absent chat_id store clock Hr E).
      do 2 eexists. split; [reflexivity|now left].
    + left. exists r1. split; [reflexivity|].
      exact (DELETE_chat_found chat_id store clock r1 E).
    + right; left. split; [discriminate|].
      rewrite (DELETE_chat_multiple chat_id store clock r1 r2 rows E).
      eexists. reflexivity.
  - right; right. split; [now apply select_chats_out_of_range|].
    rewrite (DELETE_chat_out_of_range chat_id store clock Hr).
    do 2 eexists. split; [reflexivity|now right].
Qed.

(** A delete is all or nothing: the request either answers 204 and leaves
    the store without the chat and without its messages, or answers an
    error and leaves the store as it was. *)
Lemma DELETE_chat_all_or_nothing (chat_id : Z) (store : Database) (clock : Z) :
  let '(response, after, _) := DELETE_chat chat_id store clock in
  (status_code response = 204 /\ after = delete_chats chat_id store)
  \/ (status_code response <> 204 /\ after = store).
Proof.
  destruct (DELETE_chat_cases chat_id store clock)
    as [(row & _ & ->) | [(_ & sent & ->) | (_ & r & sent & -> & Hs)]].
  - left. split; reflexivity.
  - right. split; [discriminate|reflexivity].
  - right. split; [|reflexivity]. destruct Hs as [-> | ->]; discriminate.
Qed.

(** C4.  For a chat that exists, whatever messages it owns, the delete
    request answers 204 after a single [DELETE] statement, committed with
    it: the store is left without the chat and without every message whose
    [chat_id] references it, and with all other rows.  On that store
    [get_chat_with_messages] for the chat raises [ChatNotFoundException]
    (404 at the endpoint), and no request returns any of the deleted
    messages. *)
Theorem delete_chat_cascade (tie : Tie) (chat_id : Z) (store : Database)
    (clock : Z) (row : chats_row) :
  select_chats chat_id store = [row] ->
  let after := delete_chats chat_id store in
  DELETE_chat chat_id store clock
  = ({| status_code := 204; content := no_content |}, after,
     [SELECT_chats chat_id; SELECT_messages_IN chat_id;
      DELETE_chats chat_id; COMMIT])
  /\ (forall r : chats_row,
        In r (chats after) <-> In r (chats store) /\ chats_id r <> chat_id)
  /\ (forall m : Message.t,
        In m (messages after)
        <-> In m (messages store) /\ Message.chat_id m <> chat_id)
  /\ (forall (s : Session) (limit offset : Z),
        conn s = after ->
        ChatService.get_chat_with_messages tie chat_id limit offset s
        = (inl (ChatNotFoundException chat_id),
           logged s [SELECT_chats chat_id]))
  /\ (forall limit offset clock' : Z,
        1 <= limit <= 100 -> 0 <= offset ->
        GET_chat tie chat_id limit offset after clock'
        = ({| status_code := 404;
              content := detail (ChatNotFoundException_detail chat_id) |},
           after, [SELECT_chats chat_id; ROLLBACK]))
  /\ (forall (req : Request) (clock' : Z) (m : Message.t),
        In m (select_messages chat_id store) ->
        ~ In m (retrieved
                  (content (fst (fst (handle tie req after clock')))))).
Proof.
  intros Hrow after.
  destruct (select_chats_row _ _ _ Hrow) as (Hr & _).
  split; [exact (DELETE_chat_found chat_id store clock row Hrow)|].
  split; [intros r; exact (delete_chats_chats chat_id store r Hr)|].
  split; [exact (delete_chats_messages chat_id store)|].
  split.
  { intros s limit offset Hs. apply get_chat_with_messages_absent; trivial.
    rewrite Hs. apply delete_chats_select_chats. }
  split.
  { intros limit offset clock' Hl Ho. apply GET_chat_absent; trivial.
    apply delete_chats_select_chats. }
  intros req clock' m Hdel Hret.
  apply handle_after_delete in Hret.
  apply filter_In in Hdel as [_ Hin]. unfold in_chat in Hin.
  apply Z.eqb_eq in Hin. contradiction.
Qed.

(** The chat of [three_messages] and its three messages. *)
Lemma delete_chat_cascade_witness :
  DELETE_chat 1 three_messages 14
  = ({| status_code := 204; content := no_content |},
     {| chats := []; messages := []; chats_id_seq := 1;
        messages_id_seq := 3 |},
     [SELECT_chats 1; SELECT_messages_IN 1; DELETE_chats 1; COMMIT])
  /\ GET_chat first_met 1 20 0 (delete_chats 1 three_messages) 15
     = ({| status_code := 404;
           content := detail "Chat with id 1 not found" |},
        delete_chats 1 three_messages, [SELECT_chats 1; ROLLBACK]).
Proof.
  destruct (delete_chat_cascade first_met 1 three_messages 14
              {| chats_id := 1; chats_title := of_string "Test Chat";
                 chats_created_at := 10 |} eq_refl)
    as (Hdel & _ & _ & _ & Hget & _).
  split.
  - exact Hdel.
  - apply Hget; lia.
Defined.

(** ** Keys *)

Section Keys.

Variable A : Type.
Variable key : A -> Z.

Lemma existsb_key_false (k : Z) (l : list A) :
  existsb (Z.eqb k) (map key l) = false ->
  filter (fun x => key x =? k) l = [].
Proof.
  induction l as [|a l IH]; simpl; [reflexivity|].
  intros H. apply orb_false_iff in H as [H1 H2].
  rewrite Z.eqb_sym, H1. now apply IH.
Qed.

(** A key selects at most one row. *)
Lemma distinct_select (k : Z) (l : list A) :
  distinct (map key l) = true ->
  filter (fun x => key x =? k) l = []
  \/ exists a, filter (fun x => key x =? k) l = [a].
Proof.
  induction l as [|a l IH]; simpl; [now left|].
  intros H. apply andb_prop in H as [H1 H2].
  destruct (Z.eqb_spec (key a) k) as [E|E].
  - right. exists a. f_equal. apply existsb_key_false.
    rewrite <- E. now apply negb_true_iff.
  - now apply IH.
Qed.

Lemma existsb_key_filter (p : A -> bool) (k : Z) (l : list A) :
  existsb (Z.eqb k) (map key l) = false ->
  existsb (Z.eqb k) (map key (filter p l)) = false.
Proof.
  induction l as [|a l IH]; simpl; [reflexivity|].
  intros H. apply orb_false_iff in H as [H1 H2].
  destruct (p a); simpl; [rewrite H1|]; now apply IH.
Qed.

Lemma distinct_filter (p : A -> bool) (l : list A) :
  distinct (map key l) = true -> distinct (map key (filter p l)) = true.
Proof.
  induction l as [|a l IH]; simpl; [reflexivity|].
  intros H. apply andb_prop in H as [H1 H2].
  destruct (p a); simpl; [|now apply IH].
  rewrite IH by assumption. apply negb_true_iff in H1.
  now rewrite existsb_key_filter.
Qed.

(** A key above all the keys of a table is new to it. *)
Lemma below_select (seq : Z) (l : list A) :
  forallb (fun x => key x <=? seq) l = true ->
  filter (fun x => key x =? seq + 1) l = [].
Proof.
  induction l as [|a l IH]; simpl; [reflexivity|].
  intros H. apply andb_prop in H as [H1 H2]. apply Z.leb_le in H1.
  destruct (Z.eqb_spec (key a) (seq + 1)); [lia|]. now apply IH.
Qed.

Lemma distinct_app (seq : Z) (l : list A) (a : A) :
  distinct (map key l) = true ->
  forallb (fun x => key x <=? seq) l = true ->
  key a = seq + 1 ->
  distinct (map key (l ++ [a])) = true.
Proof.
  intros Hd Hb Ha. induction l as [|x l IH]; simpl; [reflexivity|].
  simpl in Hd, Hb.
  apply andb_prop in Hd as [Hd1 Hd2]. apply andb_prop in Hb as [Hb1 Hb2].
  rewrite IH by assumption. rewrite andb_true_r.
  rewrite map_app, existsb_app. simpl.
  apply negb_true_iff in Hd1. rewrite Hd1. simpl.
  apply Z.leb_le in Hb1. rewrite orb_false_r.
  apply negb_true_iff. apply Z.eqb_neq. lia.
Qed.

Lemma forallb_filter (p q : A -> bool) (l : list A) :
  forallb q l = true -> forallb q (filter p l) = true.
Proof.
  rewrite !forallb_forall. intros H x Hx. apply filter_In in Hx as [Hx _].
  now apply H.
Qed.

Lemma forallb_weaken (p q : A -> bool) (l : list A) :
  (forall x, p x = true -> q x = true) ->
  forallb p l = true -> forallb q l = true.
Proof.
  rewrite !forallb_forall. intros H Hp x Hx. now apply H, Hp.
Qed.

End Keys.

(** ** Filters *)

Section Filters.

Variable A : Type.

Lemma filter_nil_inv (p : A -> bool) (l : list A) :
  filter p l = [] -> forall x, In x l -> p x = false.
Proof.
  induction l as [|a l IH]; simpl; intros H x []; subst.
  - destruct (p x); [discriminate|reflexivity].
  - destruct (p a); [discriminate|]. now apply IH.
Qed.

Lemma filter_id (p : A -> bool) (l : list A) :
  (forall x, In x l -> p x = true) -> filter p l = l.
Proof.
  induction l as [|a l IH]; simpl; intros H; [reflexivity|].
  rewrite (H a (or_introl eq_refl)). f_equal. apply IH.
  intros x Hx. apply H. now right.
Qed.

Lemma filter_none (p : A -> bool) (l : list A) :
  (forall x, In x l -> p x = false) -> filter p l = [].
Proof.
  induction l as [|a l IH]; simpl; intros H; [reflexivity|].
  rewrite (H a (or_introl eq_refl)). apply IH.
  intros x Hx. apply H. now right.
Qed.

Lemma filter_filter (p q : A -> bool) (l : list A) :
  filter p (filter q l) = filter (fun x => q x && p x) l.
Proof.
  induction l as [|a l IH]; simpl; [reflexivity|].
  destruct (q a); simpl; [destruct (p a)|]; now rewrite IH.
Qed.

(** Two rows of a table with the same key are the same row. *)
Lemma distinct_key_eq (key : A -> Z) (l : list A) (a b : A) :
  distinct (map key l) = true ->
  In a l -> In b l -> key a = key b -> a = b.
Proof.
  induction l as [|x l IH]; simpl; [intros _ []|].
  intros H Ha Hb E. apply andb_prop in H as [H1 H2].
  apply negb_true_iff in H1.
  assert (Hno : forall y, In y l -> key x <> key y).
  { intros y Hy Ey. apply (existsb_key_false _ key (key x)) in H1.
    apply (filter_nil_inv _ _ H1) in Hy.
    apply Z.eqb_neq in Hy. congruence. }
  destruct Ha as [<-|Ha], Hb as [<-|Hb]; trivial.
  - now apply Hno in Hb.
  - symmetry in E. now apply Hno in Ha.
  - now apply IH.
Qed.

End Filters.

Lemma delete_all_messages_messages (ids : list Z) (d : Database) :
  messages (delete_all_messages ids d)
  = filter (fun m => negb (existsb (Z.eqb (Message.id m)) ids)) (messages d).
Proof.
  revert d. induction ids as [|id ids IH]; intros d; simpl.
  - symmetry. now apply filter_id.
  - rewrite IH. unfold delete_messages; cbn. rewrite filter_filter.
    apply filter_ext. intros m. unfold message_has_id.
    now rewrite negb_orb.
Qed.

Lemma delete_all_messages_frame (ids : list Z) (d : Database) :
  chats (delete_all_messages ids d) = chats d
  /\ chats_id_seq (delete_all_messages ids d) = chats_id_seq d
  /\ messages_id_seq (delete_all_messages ids d) = messages_id_seq d.
Proof.
  revert d. induction ids as [|id ids IH]; intros d; simpl; [auto|].
  destruct (IH (delete_messages id d)) as (H1 & H2 & H3).
  now rewrite H1, H2, H3.
Qed.

(** ** Well-formed stores *)

Lemma well_formed_inv (d : Database) :
  well_formed d = true <->
  distinct (map chats_id (chats d)) = true
  /\ distinct (map Message.id (messages d)) = true
  /\ forallb (fun r => chats_id r <=? chats_id_seq d) (chats d) = true
  /\ forallb (fun m => Message.id m <=? messages_id_seq d) (messages d) = true
  /\ forallb (fun m => existsb (chat_has_id (Message.chat_id m)) (chats d))
       (messages d) = true
  /\ forallb (fun r => canonical 200 (chats_title r)
                       && negb (has_nul (chats_title r))) (chats d) = true
  /\ forallb (fun m => canonical 5000 (Message.text m)
                       && negb (has_nul (Message.text m))) (messages d) = true
  /\ int32 (chats_id_seq d) = true
  /\ int32 (messages_id_seq d) = true.
Proof.
  unfold well_formed. rewrite !andb_true_iff. tauto.
Qed.

(** In a well-formed store a chat id selects no row or one. *)
Lemma well_formed_select_chats (d : Database) (chat_id : Z) :
  well_formed d = true ->
  select_chats chat_id d = []
  \/ exists row, select_chats chat_id d = [row].
Proof.
  intros H. apply well_formed_inv in H as (H1 & _).
  destruct (int32 chat_id) eqn:Hr.
  - rewrite (select_chats_in_range d chat_id Hr).
    exact (distinct_select _ chats_id chat_id (chats d) H1).
  - left. now apply select_chats_out_of_range.
Qed.

Lemma well_formed_next_chat (d : Database) :
  well_formed d = true -> select_chats (chats_id_seq d + 1) d = [].
Proof.
  intros H. apply well_formed_inv in H as (_ & _ & H3 & _).
  destruct (int32 (chats_id_seq d + 1)) eqn:Hr.
  - rewrite (select_chats_in_range d _ Hr).
    exact (below_select _ chats_id (chats_id_seq d) (chats d) H3).
  - now apply select_chats_out_of_range.
Qed.

Lemma well_formed_next_message (d : Database) :
  well_formed d = true ->
  filter (message_has_id (messages_id_seq d + 1)) (messages d) = [].
Proof.
  intros H. apply well_formed_inv in H as (_ & _ & _ & H4 & _).
  exact (below_select _ Message.id (messages_id_seq d) (messages d) H4).
Qed.

Lemma select_chats_existsb (d : Database) (chat_id : Z) :
  existsb (chat_has_id chat_id) (chats d) = negb (is_nil (select_chats chat_id d)).
Proof.
  unfold select_chats. induction (chats d) as [|r l IH]; simpl; [reflexivity|].
  destruct (chat_has_id chat_id r); simpl; [reflexivity|exact IH].
Qed.

(** No message references the chat the sequence will hand out next. *)
Lemma well_formed_next_collection (d : Database) :
  well_formed d = true -> select_messages (chats_id_seq d + 1) d = [].
Proof.
  intros H. pose proof (well_formed_next_chat d H) as Hn.
  apply well_formed_inv in H as (_ & _ & _ & _ & H5 & _).
  unfold select_messages.
  rewrite forallb_forall in H5.
  induction (messages d) as [|m l IH]; simpl; [reflexivity|].
  destruct (in_chat (chats_id_seq d + 1) m) eqn:E.
  - unfold in_chat in E. apply Z.eqb_eq in E.
    specialize (H5 m (or_introl eq_refl)).
    rewrite select_chats_existsb, E, Hn in H5. discriminate.
  - apply IH. intros x Hx. apply H5. now right.
Qed.

Lemma well_formed_insert_chats (d : Database) (title : pystr) (clock : Z) :
  well_formed d = true -> canonical 200 title = true ->
  has_nul title = false -> int32 (chats_id_seq d + 1) = true ->
  well_formed (insert_chats title clock d) = true.
Proof.
  intros H Ht Hn Hs.
  apply well_formed_inv in H as (H1 & H2 & H3 & H4 & H5 & H6 & H7 & H8 & H9).
  apply well_formed_inv. unfold insert_chats; cbn.
  repeat split; trivial.
  - now apply (distinct_app _ chats_id (chats_id_seq d)).
  - rewrite forallb_app. cbn. rewrite Z.leb_refl.
    rewrite (forallb_weaken _ (fun r => chats_id r <=? chats_id_seq d)
               (fun r => chats_id r <=? chats_id_seq d + 1)); trivial.
    intros x Hx. apply Z.leb_le in Hx. apply Z.leb_le. lia.
  - eapply forallb_weaken; [|exact H5].
    intros m Hm. rewrite existsb_app, Hm. reflexivity.
  - rewrite forallb_app, H6. cbn [forallb chats_title andb].
    now rewrite Ht, Hn.
Qed.

Lemma well_formed_insert_messages (d : Database) (chat_id : Z) (text : pystr)
    (clock : Z) :
  well_formed d = true -> canonical 5000 text = true ->
  has_nul text = false -> int32 (messages_id_seq d + 1) = true ->
  select_chats chat_id d <> [] ->
  well_formed (insert_messages chat_id text clock d) = true.
Proof.
  intros H Ht Hn Hs Hc.
  apply well_formed_inv in H as (H1 & H2 & H3 & H4 & H5 & H6 & H7 & H8 & H9).
  apply well_formed_inv. unfold insert_messages; cbn.
  repeat split; trivial.
  - now apply (distinct_app _ Message.id (messages_id_seq d)).
  - rewrite forallb_app. cbn. rewrite Z.leb_refl.
    rewrite (forallb_weaken _ (fun m => Message.id m <=? messages_id_seq d)
               (fun m => Message.id m <=? messages_id_seq d + 1)); trivial.
    intros x Hx. apply Z.leb_le in Hx. apply Z.leb_le. lia.
  - rewrite forallb_app. cbn. rewrite H5, select_chats_existsb.
    destruct (select_chats chat_id d); [congruence|reflexivity].
  - rewrite forallb_app, H7. cbn [forallb Message.text andb].
    now rewrite Ht, Hn.
Qed.

Lemma well_formed_delete_messages (d : Database) (id : Z) :
  well_formed d = true -> well_formed (delete_messages id d) = true.
Proof.
  intros H.
  apply well_formed_inv in H as (H1 & H2 & H3 & H4 & H5 & H6 & H7 & H8 & H9).
  apply well_formed_inv. unfold delete_messages; cbn.
  repeat split; trivial.
  - now apply distinct_filter.
  - now apply forallb_filter.
  - now apply forallb_filter.
  - now apply forallb_filter.
Qed.

Lemma well_formed_delete_all_messages (ids : list Z) (d : Database) :
  well_formed d = true -> well_formed (delete_all_messages ids d) = true.
Proof.
  revert d. induction ids as [|id ids IH]; intros d H; simpl; [exact H|].
  apply IH. now apply well_formed_delete_messages.
Qed.

Lemma well_formed_delete_chats (d : Database) (chat_id : Z) :
  well_formed d = true -> well_formed (delete_chats chat_id d) = true.
Proof.
  intros H.
  apply well_formed_inv in H as (H1 & H2 & H3 & H4 & H5 & H6 & H7 & H8 & H9).
  apply well_formed_inv. unfold delete_chats; cbn.
  repeat split; trivial.
  - now apply distinct_filter.
  - now apply distinct_filter.
  - now apply forallb_filter.
  - now apply forallb_filter.
  - rewrite forallb_forall in *. intros m Hm.
    apply filter_In in Hm as [Hm Hc]. specialize (H5 m Hm).
    apply existsb_exists in H5 as (r & Hr & Hid).
    apply existsb_exists. exists r. split; [|exact Hid].
    apply filter_In. split; [exact Hr|].
    unfold chat_has_id, in_chat in *.
    apply andb_prop in Hid as [_ Hid]. apply Z.eqb_eq in Hid.
    rewrite Hid. apply negb_true_iff in Hc. rewrite Hc.
    now rewrite andb_false_r.
  - now apply forallb_filter.
  - now apply forallb_filter.
Qed.

(** ** Creating *)


Lemma next_int32 (seq : Z) :
  int32 seq = true -> seq < 2147483647 -> int32 (seq + 1) = true.
Proof. rewrite !int32_iff. lia. Qed.

Lemma select_chats_insert_chats (d : Database) (title : pystr) (clock : Z) :
  well_formed d = true -> int32 (chats_id_seq d + 1) = true ->
  select_chats (chats_id_seq d + 1) (insert_chats title clock d)
  = [ {| chats_id := chats_id_seq d + 1; chats_title := title;
         chats_created_at := clock |} ].
Proof.
  intros H Hs. unfold select_chats, insert_chats; cbn [chats].
  rewrite filter_app. cbn [filter]. unfold chat_has_id at 2. cbn [chats_id].
  rewrite Z.eqb_refl, Hs. cbn [andb].
  change (filter (chat_has_id (chats_id_seq d + 1)) (chats d))
    with (select_chats (chats_id_seq d + 1) d).
  now rewrite well_formed_next_chat.
Qed.

(** The [INSERT] of a chat the store takes. *)
Lemma flush_new_Chat (s : Session) (title : pystr) :
  has_nul title = false -> len title <= 200 ->
  int32 (chats_id_seq (conn s) + 1) = true ->
  flush_new (new_Chat title) s
  = (inr (chats_id_seq (conn s) + 1),
     {| conn := insert_chats title (now s) (conn s); now := now s;
        new := new s; deleted := deleted s;
        log := log s ++ [INSERT_chats title] |}).
Proof.
  intros Hn Hl Hs. unfold flush_new, bind, read.
  rewrite Hn, Hs. replace (200 <? len title) with false
    by (symmetry; apply Z.ltb_ge; lia).
  reflexivity.
Qed.

(** The [INSERT] of a chat the store refuses: nothing changes. *)
Lemma flush_new_Chat_refused (s : Session) (title : pystr) :
  has_nul title || negb (int32 (chats_id_seq (conn s) + 1)) = true ->
  flush_new (new_Chat title) s
  = (inl (SQLAlchemyError "DBAPIError"), logged s [INSERT_chats title]).
Proof.
  intros H. unfold flush_new, bind, read.
  replace (has_nul title || (200 <? len title)
           || negb (int32 (chats_id_seq (conn s) + 1))) with true.
  - reflexivity.
  - symmetry. apply orb_prop in H as [->| ->]; [reflexivity|].
    apply orb_true_r.
Qed.

Lemma flush_new_Message (s : Session) (chat_id : Z) (text : pystr) :
  has_nul text = false -> len text <= 5000 ->
  int32 (messages_id_seq (conn s) + 1) = true ->
  select_chats chat_id (conn s) <> [] ->
  flush_new (new_Message chat_id text) s
  = (inr (messages_id_seq (conn s) + 1),
     {| conn := insert_messages chat_id text (now s) (conn s); now := now s;
        new := new s; deleted := deleted s;
        log := log s ++ [INSERT_messages chat_id text] |}).
Proof.
  intros Hn Hl Hs Hc. unfold flush_new, bind, read.
  rewrite Hn, Hs. replace (5000 <? len text) with false
    by (symmetry; apply Z.ltb_ge; lia).
  cbn [orb negb]. destruct (select_chats chat_id (conn s)); [congruence|].
  reflexivity.
Qed.

Lemma flush_new_Message_refused (s : Session) (chat_id : Z) (text : pystr) :
  has_nul text || negb (int32 (messages_id_seq (conn s) + 1)) = true ->
  flush_new (new_Message chat_id text) s
  = (inl (SQLAlchemyError "DBAPIError"),
     logged s [INSERT_messages chat_id text]).
Proof.
  intros H. unfold flush_new, bind, read.
  replace (has_nul text || (5000 <? len text)
           || negb (int32 (messages_id_seq (conn s) + 1))) with true.
  - reflexivity.
  - symmetry. apply orb_prop in H as [->| ->]; [reflexivity|].
    apply orb_true_r.
Qed.

Lemma POST_chats_created (raw t : pystr) (store : Database) (clock : Z) :
  well_formed store = true ->
  ChatCreate.validate_title raw = inr t ->
  has_nul t = false -> chats_id_seq store < 2147483647 ->
  POST_chats raw store clock
  = ({| status_code := 201;
        content := ChatResponse (chats_id_seq store + 1) t clock |},
     insert_chats t clock store,
     [INSERT_chats t; SELECT_chats (chats_id_seq store + 1);
      SELECT_messages_IN (chats_id_seq store + 1); COMMIT]).
Proof.
  intros Hwf Hv Hn Hseq. unfold POST_chats, ChatCreate.model_validate.
  rewrite Hv.
  pose proof (validate_title_canonical raw t Hv) as Hc.
  apply canonical_inv in Hc as (_ & Hl & _).
  assert (Hs : int32 (chats_id_seq store + 1) = true).
  { apply next_int32; [|exact Hseq].
    now apply well_formed_inv in Hwf as (_ & _ & _ & _ & _ & _ & _ & H8 & _). }
  unfold serve, get_db, routers.create_chat, ChatService.create_chat, bind,
    add, flush, bind, fresh.
  cbn [new conn now deleted log app flush_all_new].
  unfold bind.
  cbn [ChatCreate.title].
  rewrite flush_new_Chat by (cbn [conn]; trivial; lia).
  unfold ret. cbn [flush_all_deleted conn now new deleted log app].
  unfold ret, refresh_Chat, bind, execute_select_Chat. rewrite Hs. cbn [negb].
  unfold bind, send, read. cbn [conn now new deleted log].
  rewrite (select_chats_insert_chats store t clock Hwf Hs).
  cbn [map chats_id chats_title chats_created_at ret].
  unfold ret, commit, bind. rewrite flush_run by reflexivity.
  unfold send. cbn.
  reflexivity.
Qed.

(** A title the schema accepts and the store refuses: the transaction is
    rolled back and the handler for [SQLAlchemyError] answers. *)
Lemma POST_chats_refused (raw t : pystr) (store : Database) (clock : Z) :
  ChatCreate.validate_title raw = inr t ->
  has_nul t || negb (int32 (chats_id_seq store + 1)) = true ->
  POST_chats raw store clock
  = ({| status_code := 500; content := detail "Internal server error" |},
     store, [INSERT_chats t; ROLLBACK]).
Proof.
  intros Hv H. unfold POST_chats, ChatCreate.model_validate. rewrite Hv.
  unfold serve, get_db, routers.create_chat, ChatService.create_chat, bind,
    add, flush, bind, fresh.
  cbn [new conn now deleted log app flush_all_new].
  unfold bind. cbn [ChatCreate.title].
  rewrite flush_new_Chat_refused by exact H.
  cbn. now rewrite rollback_same.
Qed.

Lemma POST_messages_created (chat_id : Z) (raw t : pystr) (store : Database)
    (clock : Z) (row : chats_row) :
  well_formed store = true ->
  MessageCreate.validate_text raw = inr t ->
  has_nul t = false -> messages_id_seq store < 2147483647 ->
  select_chats chat_id store = [row] ->
  POST_messages chat_id raw store clock
  = ({| status_code := 201;
        content := MessageResponse
                     (Message.mk (messages_id_seq store + 1) chat_id t clock) |},
     insert_messages chat_id t clock store,
     [SELECT_chats chat_id; SELECT_messages_IN chat_id;
      INSERT_messages chat_id t;
      SELECT_messages_by_id (messages_id_seq store + 1); COMMIT]).
Proof.
  intros Hwf Hv Hn Hseq Hrow. unfold POST_messages, MessageCreate.model_validate.
  rewrite Hv.
  pose proof (validate_text_canonical raw t Hv) as Hc.
  apply canonical_inv in Hc as (_ & Hl & _).
  assert (Hs : int32 (messages_id_seq store + 1) = true).
  { apply next_int32; [|exact Hseq].
    now apply well_formed_inv in Hwf as (_ & _ & _ & _ & _ & _ & _ & _ & H9). }
  unfold serve, get_db, routers.create_message, ChatService.create_message,
    bind.
  rewrite (get_chat_by_id_found (fresh store clock) chat_id false row Hrow).
  unfold add, flush, bind, logged, fresh.
  cbn [new conn now deleted log app flush_all_new].
  unfold bind. cbn [MessageCreate.text].
  rewrite flush_new_Message
    by (cbn [conn]; trivial; try lia; rewrite Hrow; discriminate).
  unfold ret. cbn [flush_all_deleted conn now new deleted log app].
  unfold ret, refresh_Message, bind, send, read.
  cbn [conn now new deleted log].
  unfold insert_messages at 1. cbn [messages].
  rewrite filter_app. cbn [filter]. unfold message_has_id at 2.
  cbn [Message.id].
  rewrite Z.eqb_refl, (well_formed_next_message store Hwf).
  cbn [app ret]. unfold ret, commit, bind. rewrite flush_run by reflexivity.
  unfold send. cbn.
  reflexivity.
Qed.

Lemma POST_messages_refused (chat_id : Z) (raw t : pystr) (store : Database)
    (clock : Z) (row : chats_row) :
  MessageCreate.validate_text raw = inr t ->
  has_nul t || negb (int32 (messages_id_seq store + 1)) = true ->
  select_chats chat_id store = [row] ->
  POST_messages chat_id raw store clock
  = ({| status_code := 500; content := detail "Internal server error" |},
     store,
     [SELECT_chats chat_id; SELECT_messages_IN chat_id;
      INSERT_messages chat_id t; ROLLBACK]).
Proof.
  intros Hv H Hrow. unfold POST_messages, MessageCreate.model_validate.
  rewrite Hv.
  unfold serve, get_db, routers.create_message, ChatService.create_message,
    bind.
  rewrite (get_chat_by_id_found (fresh store clock) chat_id false row Hrow).
  unfold add, flush, bind, logged, fresh.
  cbn [new conn now deleted log app flush_all_new].
  unfold bind. cbn [MessageCreate.text].
  rewrite flush_new_Message_refused by exact H.
  cbn. now rewrite rollback_same.
Qed.

Lemma POST_messages_absent (chat_id : Z) (raw t : pystr) (store : Database)
    (clock : Z) :
  MessageCreate.validate_text raw = inr t ->
  int32 chat_id = true ->
  select_chats chat_id store = [] ->
  POST_messages chat_id raw store clock
  = ({| status_code := 404;
        content := detail (ChatNotFoundException_detail chat_id) |},
     store, [SELECT_chats chat_id; ROLLBACK]).
Proof.
  intros Hv Hr H. unfold POST_messages, MessageCreate.model_validate.
  rewrite Hv. unfold serve, get_db, routers.create_message, bind.
  rewrite create_message_absent by assumption.
  cbn. now rewrite rollback_same.
Qed.

Lemma POST_messages_id_out_of_range (chat_id : Z) (raw t : pystr)
    (store : Database) (clock : Z) :
  MessageCreate.validate_text raw = inr t ->
  int32 chat_id = false ->
  POST_messages chat_id raw store clock
  = ({| status_code := 500; content := detail "Internal server error" |},
     store, [ROLLBACK]).
Proof.
  intros Hv Hr. unfold POST_messages, MessageCreate.model_validate.
  rewrite Hv.
  unfold serve, get_db, routers.create_message, ChatService.create_message,
    bind.
  rewrite (get_chat_by_id_out_of_range (fresh store clock) chat_id false Hr).
  cbn. now rewrite rollback_same.
Qed.

(** ** Every request on a well-formed store *)

Lemma GET_chat_rejected (tie : Tie) (chat_id limit offset : Z)
    (store : Database) (clock : Z) :
  routers.get_chat_params limit offset <> [] ->
  GET_chat tie chat_id limit offset store clock
  = ({| status_code := 422;
        content := detail_errors (routers.get_chat_params limit offset) |},
     store, []).
Proof.
  intros H. unfold GET_chat, reject.
  destruct (routers.get_chat_params limit offset) as [|e errors] eqn:E;
    [congruence|].
  assert (Hr : forallb renders (e :: errors) = true).
  { rewrite <- E. unfold routers.get_chat_params, Query.
    destruct (100 <? limit), (limit <? 1), (offset <? 0); reflexivity. }
  unfold exception_handler. now rewrite Hr.
Qed.

Lemma GET_chat_id_out_of_range (tie : Tie) (chat_id limit offset : Z)
    (store : Database) (clock : Z) :
  int32 chat_id = false ->
  1 <= limit <= 100 -> 0 <= offset ->
  GET_chat tie chat_id limit offset store clock
  = ({| status_code := 500; content := detail "Internal server error" |},
     store, [ROLLBACK]).
Proof.
  intros Hr Hl Ho. unfold GET_chat.
  rewrite (proj2 (get_chat_params_nil limit offset) (conj Hl Ho)).
  unfold serve, get_db, routers.get_chat, ChatService.get_chat_with_messages,
    bind.
  rewrite (get_chat_by_id_out_of_range (fresh store clock) chat_id false Hr).
  cbn. now rewrite rollback_same.
Qed.

Lemma GET_chat_refused (tie : Tie) (chat_id limit offset : Z)
    (store : Database) (clock : Z) (row : chats_row) :
  select_chats chat_id store = [row] ->
  1 <= limit <= 100 -> 9223372036854775807 < offset ->
  GET_chat tie chat_id limit offset store clock
  = ({| status_code := 500; content := detail "Internal server error" |},
     store,
     [SELECT_chats chat_id; SELECT_messages_IN chat_id; ROLLBACK]).
Proof.
  intros Hrow Hl Ho. unfold GET_chat.
  assert (Ho' : 0 <= offset) by lia.
  rewrite (proj2 (get_chat_params_nil limit offset) (conj Hl Ho')).
  unfold serve, get_db, routers.get_chat, bind.
  rewrite (get_chat_with_messages_refused tie (fresh store clock) chat_id
             limit offset row Hrow).
  - cbn. now rewrite rollback_same.
  - apply andb_false_iff. right. unfold int64. apply andb_false_iff. right.
    apply Z.leb_gt. lia.
Qed.

Lemma GET_chat_multiple (tie : Tie) (chat_id limit offset : Z)
    (store : Database) (clock : Z) (r1 r2 : chats_row)
    (rows : list chats_row) :
  select_chats chat_id store = r1 :: r2 :: rows ->
  1 <= limit <= 100 -> 0 <= offset ->
  GET_chat tie chat_id limit offset store clock
  = ({| status_code := 500; content := detail "Internal server error" |},
     store,
     [SELECT_chats chat_id; SELECT_messages_IN chat_id; ROLLBACK]).
Proof.
  intros E Hl Ho. unfold GET_chat.
  rewrite (proj2 (get_chat_params_nil limit offset) (conj Hl Ho)).
  unfold serve, get_db, routers.get_chat, ChatService.get_chat_with_messages,
    bind.
  rewrite (get_chat_by_id_multiple (fresh store clock) chat_id false
             r1 r2 rows E).
  cbn. now rewrite rollback_same.
Qed.

Lemma store_after_eq (r : Response) (d : Database) (sent : list Statement) :
  store_after (r, d, sent) = d.
Proof. reflexivity. Qed.

Lemma response_of_eq (r : Response) (d : Database) (sent : list Statement) :
  response_of (r, d, sent) = r.
Proof. reflexivity. Qed.

(** What a [GET] does to any store: nothing, or the deletes of its
    commit. *)
Lemma GET_chat_store (tie : Tie) (chat_id limit offset : Z)
    (store : Database) (clock : Z) :
  store_after (GET_chat tie chat_id limit offset store clock) = store
  \/ exists ids,
       store_after (GET_chat tie chat_id limit offset store clock)
       = delete_all_messages ids store.
Proof.
  destruct (routers.get_chat_params limit offset) as [|e errors] eqn:E.
  - apply get_chat_params_nil in E as [Hl Ho].
    destruct (int32 chat_id) eqn:Hr.
    + destruct (select_chats chat_id store) as [|r1 [|r2 rows]] eqn:Es.
      * rewrite (GET_chat_absent tie chat_id limit offset store clock Hr Es
                   Hl Ho).
        now left.
      * destruct (Z_le_gt_dec offset 9223372036854775807) as [Hb|Hb].
        -- rewrite (GET_chat_outcome tie store clock chat_id limit offset r1
                      Es Hl (conj Ho Hb)).
           right. eexists. reflexivity.
        -- rewrite (GET_chat_refused tie chat_id limit offset store clock r1
                      Es Hl) by lia.
           now left.
      * rewrite (GET_chat_multiple tie chat_id limit offset store clock r1 r2
                   rows Es Hl Ho).
        now left.
    + rewrite (GET_chat_id_out_of_range tie chat_id limit offset store clock
                 Hr Hl Ho).
      now left.
  - rewrite GET_chat_rejected by (rewrite E; discriminate). now left.
Qed.

(** What a [POST] of a chat does to a well-formed store. *)
Lemma POST_chats_store (raw : pystr) (store : Database) (clock : Z) :
  well_formed store = true ->
  store_after (POST_chats raw store clock) = store
  \/ exists t, canonical 200 t = true /\ has_nul t = false
               /\ int32 (chats_id_seq store + 1) = true
               /\ ChatCreate.validate_title raw = inr t
               /\ store_after (POST_chats raw store clock)
                  = insert_chats t clock store.
Proof.
  intros Hwf.
  destruct (ChatCreate.validate_title raw) as [e|t] eqn:E.
  - rewrite (POST_chats_rejected raw store clock e E). now left.
  - destruct (has_nul t || negb (int32 (chats_id_seq store + 1))) eqn:H.
    + rewrite (POST_chats_refused raw t store clock E H). now left.
    + apply orb_false_iff in H as [Hn Hs]. apply negb_false_iff in Hs.
      assert (Hseq : chats_id_seq store < 2147483647)
        by (apply int32_iff in Hs; lia).
      rewrite (POST_chats_created raw t store clock Hwf E Hn Hseq).
      right. exists t. repeat split; trivial.
      exact (validate_title_canonical raw t E).
Qed.

(** What a [POST] of a message does to a well-formed store. *)
Lemma POST_messages_store (chat_id : Z) (raw : pystr) (store : Database)
    (clock : Z) :
  well_formed store = true ->
  store_after (POST_messages chat_id raw store clock) = store
  \/ exists t row, canonical 5000 t = true /\ has_nul t = false
                   /\ int32 (messages_id_seq store + 1) = true
                   /\ MessageCreate.validate_text raw = inr t
                   /\ select_chats chat_id store = [row]
                   /\ store_after (POST_messages chat_id raw store clock)
                      = insert_messages chat_id t clock store.
Proof.
  intros Hwf.
  destruct (MessageCreate.validate_text raw) as [e|t] eqn:E.
  - rewrite (POST_messages_rejected chat_id raw store clock e E). now left.
  - destruct (int32 chat_id) eqn:Hr.
    + destruct (well_formed_select_chats store chat_id Hwf) as [H|(row & H)].
      * rewrite (POST_messages_absent chat_id raw t store clock E Hr H).
        now left.
      * destruct (has_nul t || negb (int32 (messages_id_seq store + 1)))
          eqn:Hf.
        -- rewrite (POST_messages_refused chat_id raw t store clock row E Hf H).
           now left.
        -- apply orb_false_iff in Hf as [Hn Hs]. apply negb_false_iff in Hs.
           assert (Hseq : messages_id_seq store < 2147483647)
             by (apply int32_iff in Hs; lia).
           rewrite (POST_messages_created chat_id raw t store clock row Hwf E
                      Hn Hseq H).
           right. exists t, row. repeat split; trivial.
           exact (validate_text_canonical raw t E).
    + rewrite (POST_messages_id_out_of_range chat_id raw t store clock E Hr).
      now left.
Qed.

(** The five things a request can do to a well-formed store. *)
Lemma handle_cases (tie : Tie) (req : Request) (store : Database) (clock : Z) :
  well_formed store = true ->
  store_after (handle tie req store clock) = store
  \/ (exists t, canonical 200 t = true /\ has_nul t = false
                /\ int32 (chats_id_seq store + 1) = true
                /\ store_after (handle tie req store clock)
                   = insert_chats t clock store)
  \/ (exists chat_id t,
        canonical 5000 t = true /\ has_nul t = false
        /\ int32 (messages_id_seq store + 1) = true
        /\ select_chats chat_id store <> []
        /\ store_after (handle tie req store clock)
           = insert_messages chat_id t clock store)
  \/ (exists ids, store_after (handle tie req store clock)
                  = delete_all_messages ids store)
  \/ (exists chat_id, store_after (handle tie req store clock)
                      = delete_chats chat_id store).
Proof.
  intros Hwf.
  destruct req as [raw | cid raw | cid limit offset | cid]; cbn [handle].
  - destruct (POST_chats_store raw store clock Hwf)
      as [E|(t & Hc & Hn & Hs & _ & E)]; [now left|].
    right; left. now exists t.
  - destruct (POST_messages_store cid raw store clock Hwf)
      as [E|(t & row & Hc & Hn & Hs & _ & Hrow & E)]; [now left|].
    right; right; left. exists cid, t. repeat split; trivial.
    rewrite Hrow. discriminate.
  - destruct (GET_chat_store tie cid (default_to 20 limit)
                (default_to 0 offset) store clock) as [E|E]; [now left|].
    right; right; right. now left.
  - pose proof (DELETE_chat_all_or_nothing cid store clock) as H.
    destruct (DELETE_chat cid store clock) as [[response after] sent].
    rewrite store_after_eq. destruct H as [[_ ->]|[_ ->]]; [|now left].
    right; right; right; right. now exists cid.
Qed.

Lemma handle_cases_store (tie : Tie) (req : Request) (store : Database)
    (clock : Z) :
  well_formed store = true ->
  well_formed (store_after (handle tie req store clock)) = true.
Proof.
  intros Hwf.
  destruct (handle_cases tie req store clock Hwf)
    as [E | [(t & Ht & Hn & Hs & E) | [(cid & t & Ht & Hn & Hs & Hc & E)
          | [(ids & E) | (cid & E)]]]];
    rewrite E.
  - exact Hwf.
  - now apply well_formed_insert_chats.
  - now apply well_formed_insert_messages.
  - now apply well_formed_delete_all_messages.
  - now apply well_formed_delete_chats.
Qed.







(** The newest message comes first, whatever the engine does with ties. *)
Lemma order_by_newest (tie : Tie) (l : list Message.t) (x : Message.t) :
  (forall m, In m l -> Message.created_at m < Message.created_at x) ->
  order_by_created_at_desc tie (l ++ [x])
  = x :: order_by_created_at_desc tie l.
Proof.
  induction l as [|a l IH]; intros H; [reflexivity|].
  simpl. rewrite IH by (intros m Hm; apply H; now right).
  simpl. specialize (H a (or_introl eq_refl)).
  unfold before.
  replace (Message.created_at x <? Message.created_at a) with false
    by (symmetry; apply Z.ltb_ge; lia).
  replace (Message.created_at x =? Message.created_at a) with false
    by (symmetry; apply Z.eqb_neq; lia).
  reflexivity.
Qed.

Lemma limit_offset_nil {A : Type} (limit offset : Z) :
  limit_offset limit offset (@nil A) = [].
Proof. unfold limit_offset. now rewrite skipn_nil, firstn_nil. Qed.

(** ** Creating, then reading and deleting *)

(** X6.  On a well-formed store whose sequence of chat keys has a next
    value, a title the schema accepts and that holds no U+0000 creates a
    chat: the answer is 201 with the next key of the sequence, the trimmed
    title and the time of the transaction; the store gains that one row of
    [chats], whose key is above every key in the table, and [messages] is as
    before. *)
Theorem create_chat_persists (raw t : pystr) (store : Database) (clock : Z) :
  well_formed store = true ->
  ChatCreate.validate_title raw = inr t ->
  has_nul t = false ->
  chats_id_seq store < 2147483647 ->
  let id := chats_id_seq store + 1 in
  let after := store_after (POST_chats raw store clock) in
  t = strip raw
  /\ response_of (POST_chats raw store clock)
     = {| status_code := 201; content := ChatResponse id t clock |}
  /\ chats after
     = chats store
       ++ [ {| chats_id := id; chats_title := t; chats_created_at := clock |} ]
  /\ messages after = messages store
  /\ (forall r, In r (chats store) -> chats_id r < id).
Proof.
  intros Hwf Hv Hn Hseq id after. unfold after.
  rewrite (POST_chats_created raw t store clock Hwf Hv Hn Hseq).
  split; [now apply validate_title_inr in Hv as (_ & _ & _ & ->)|].
  repeat split.
  intros r Hr. apply well_formed_inv in Hwf as (_ & _ & H3 & _).
  rewrite forallb_forall in H3. specialize (H3 r Hr).
  apply Z.leb_le in H3. unfold id. lia.
Qed.

Lemma create_chat_persists_witness :
  of_string "Trimmed Title" = strip (of_string "  Trimmed Title  ")
  /\ response_of (POST_chats (of_string "  Trimmed Title  ") three_messages 14)
     = {| status_code := 201;
          content := ChatResponse 2 (of_string "Trimmed Title") 14 |}
  /\ chats (store_after
              (POST_chats (of_string "  Trimmed Title  ") three_messages 14))
     = chats three_messages
       ++ [ {| chats_id := 2; chats_title := of_string "Trimmed Title";
               chats_created_at := 14 |} ]
  /\ messages (store_after
                 (POST_chats (of_string "  Trimmed Title  ") three_messages 14))
     = messages three_messages
  /\ (forall r, In r (chats three_messages) -> chats_id r < 2).
Proof.
  apply (create_chat_persists (of_string "  Trimmed Title  ")
           (of_string "Trimmed Title") three_messages 14);
    try reflexivity.
Defined.

(** X7.  On a well-formed store whose sequence of message keys has a next
    value, a text the schema accepts and that holds no U+0000, posted to a
    chat that exists, creates a message: the answer is 201 with the next key
    of the sequence, the chat's id, the trimmed text and the time of the
    transaction; the store gains that one row of [messages], whose key is
    above every key in the table, and [chats] is as before. *)
Theorem create_message_persists (chat_id : Z) (raw t : pystr)
    (store : Database) (clock : Z) (row : chats_row) :
  well_formed store = true ->
  MessageCreate.validate_text raw = inr t ->
  has_nul t = false ->
  messages_id_seq store < 2147483647 ->
  select_chats chat_id store = [row] ->
  let id := messages_id_seq store + 1 in
  let after := store_after (POST_messages chat_id raw store clock) in
  t = strip raw
  /\ response_of (POST_messages chat_id raw store clock)
     = {| status_code := 201;
          content := MessageResponse (Message.mk id chat_id t clock) |}
  /\ messages after = messages store ++ [ Message.mk id chat_id t clock ]
  /\ chats after = chats store
  /\ (forall m, In m (messages store) -> Message.id m < id).
Proof.
  intros Hwf Hv Hn Hseq Hrow id after. unfold after.
  rewrite (POST_messages_created chat_id raw t store clock row Hwf Hv Hn Hseq
             Hrow).
  split; [now apply validate_text_inr in Hv as (_ & _ & _ & ->)|].
  repeat split.
  intros m Hm. apply well_formed_inv in Hwf as (_ & _ & _ & H4 & _).
  rewrite forallb_forall in H4. specialize (H4 m Hm).
  apply Z.leb_le in H4. unfold id. lia.
Qed.

Lemma create_message_persists_witness :
  of_string "Trimmed Text" = strip (of_string "  Trimmed Text  ")
  /\ response_of (POST_messages 1 (of_string "  Trimmed Text  ")
                    three_messages 14)
     = {| status_code := 201;
          content := MessageResponse
                       (Message.mk 4 1 (of_string "Trimmed Text") 14) |}
  /\ messages (store_after
                 (POST_messages 1 (of_string "  Trimmed Text  ")
                    three_messages 14))
     = messages three_messages
       ++ [ Message.mk 4 1 (of_string "Trimmed Text") 14 ]
  /\ chats (store_after
              (POST_messages 1 (of_string "  Trimmed Text  ")
                 three_messages 14))
     = chats three_messages
  /\ (forall m, In m (messages three_messages) -> Message.id m < 4).
Proof.
  apply (create_message_persists 1 (of_string "  Trimmed Text  ")
           (of_string "Trimmed Text") three_messages 14
           {| chats_id := 1; chats_title := of_string "Test Chat";
              chats_created_at := 10 |}); reflexivity.
Defined.

(** X8.  A chat that was just created can be read: on the store the
    creation of X6 leaves, a [GET] of the new key with [limit] in range and
    [offset] a non-negative 64-bit integer answers 200 with the key, the
    trimmed title, the creation time and no messages, and leaves the store
    as it is. *)
Theorem create_chat_then_get (tie : Tie) (raw t : pystr) (store : Database)
    (clock clock' limit offset : Z) :
  well_formed store = true ->
  ChatCreate.validate_title raw = inr t ->
  has_nul t = false ->
  chats_id_seq store < 2147483647 ->
  1 <= limit <= 100 -> 0 <= offset <= 9223372036854775807 ->
  let id := chats_id_seq store + 1 in
  let created := store_after (POST_chats raw store clock) in
  response_of (GET_chat tie id limit offset created clock')
  = {| status_code := 200;
       content := ChatWithMessages (Chat.mk id t clock []) |}
  /\ store_after (GET_chat tie id limit offset created clock') = created
  /\ chats created
     = chats store
       ++ [ {| chats_id := id; chats_title := t; chats_created_at := clock |} ].
Proof.
  intros Hwf Hv Hn Hseq Hl Ho id created. unfold created.
  rewrite (POST_chats_created raw t store clock Hwf Hv Hn Hseq).
  rewrite !store_after_eq.
  assert (Hs : int32 (chats_id_seq store + 1) = true).
  { apply next_int32; [|exact Hseq].
    now apply well_formed_inv in Hwf as (_ & _ & _ & _ & _ & _ & _ & H8 & _). }
  rewrite (GET_chat_outcome tie (insert_chats t clock store) clock' id limit
             offset _ (select_chats_insert_chats store t clock Hwf Hs) Hl Ho).
  cbn zeta.
  replace (select_messages id (insert_chats t clock store)) with
    (@nil Message.t)
    by (symmetry; exact (well_formed_next_collection store Hwf)).
  cbn [order_by_created_at_desc fold_right].
  rewrite limit_offset_nil. repeat split.
Qed.

Lemma create_chat_then_get_witness :
  response_of
    (GET_chat first_met 2 20 0
       (store_after (POST_chats (of_string "  Trimmed Title  ")
                       three_messages 14)) 15)
  = {| status_code := 200;
       content := ChatWithMessages
                    (Chat.mk 2 (of_string "Trimmed Title") 14 []) |}
  /\ store_after
       (GET_chat first_met 2 20 0
          (store_after (POST_chats (of_string "  Trimmed Title  ")
                          three_messages 14)) 15)
     = store_after (POST_chats (of_string "  Trimmed Title  ")
                      three_messages 14)
  /\ chats (store_after (POST_chats (of_string "  Trimmed Title  ")
                           three_messages 14))
     = chats three_messages
       ++ [ {| chats_id := 2; chats_title := of_string "Trimmed Title";
               chats_created_at := 14 |} ].
Proof.
  apply (create_chat_then_get first_met (of_string "  Trimmed Title  ")
           (of_string "Trimmed Title") three_messages 14 15 20 0);
    try reflexivity; lia.
Defined.

(** X9.  A message that was just posted is the first of the next page: on
    the store the creation of X7 leaves, when the message was posted at a
    time later than the chat's other messages, a [GET] of the chat with
    [offset = 0] answers 200 with the new message first, followed by the
    first [limit - 1] of the chat's earlier messages in descending order of
    creation time; which of two messages of the same time comes first is the
    engine's choice. *)
Theorem create_message_then_get (tie : Tie) (chat_id : Z) (raw t : pystr)
    (store : Database) (clock clock' limit : Z) (row : chats_row) :
  well_formed store = true ->
  MessageCreate.validate_text raw = inr t ->
  has_nul t = false ->
  messages_id_seq store < 2147483647 ->
  select_chats chat_id store = [row] ->
  (forall m, In m (messages store) -> Message.chat_id m = chat_id ->
             Message.created_at m < clock) ->
  1 <= limit <= 100 ->
  let earlier :=
    filter (fun m => Message.chat_id m =? chat_id) (messages store) in
  let posted := store_after (POST_messages chat_id raw store clock) in
  let response := response_of (GET_chat tie chat_id limit 0 posted clock') in
  exists sorted : list Message.t,
    Permutation sorted earlier
    /\ StronglySorted desc sorted
    /\ status_code response = 200
    /\ retrieved (content response)
       = Message.mk (messages_id_seq store + 1) chat_id t clock
         :: firstn (Z.to_nat limit - 1) sorted.
Proof.
  intros Hwf Hv Hn Hseq Hrow Hnew Hl earlier posted response.
  exists (order_by_created_at_desc tie earlier).
  split; [apply order_by_perm|]. split; [apply order_by_sorted|].
  unfold response, posted.
  rewrite (POST_messages_created chat_id raw t store clock row Hwf Hv Hn Hseq
             Hrow).
  rewrite store_after_eq.
  assert (Hrow' : select_chats chat_id (insert_messages chat_id t clock store)
                  = [row]) by exact Hrow.
  rewrite (GET_chat_outcome tie _ clock' chat_id limit 0 row Hrow' Hl)
    by lia.
  cbn zeta. rewrite response_of_eq. cbn [status_code content retrieved].
  split; [reflexivity|].
  unfold Chat_of. cbn [Chat.messages].
  unfold select_messages at 1, insert_messages. cbn [messages].
  rewrite filter_app. cbn [filter]. unfold in_chat at 2. cbn [Message.chat_id].
  rewrite Z.eqb_refl.
  change (filter (in_chat chat_id) (messages store)) with earlier.
  rewrite order_by_newest.
  - unfold limit_offset. cbn [Z.to_nat skipn].
    destruct (Z.to_nat limit) as [|n] eqn:E; [lia|].
    cbn [firstn]. now rewrite Nat.sub_1_r.
  - intros m Hm. apply filter_In in Hm as [Hm Hc]. apply Z.eqb_eq in Hc.
    cbn [Message.created_at]. now apply Hnew.
Qed.

Lemma create_message_then_get_witness :
  exists sorted : list Message.t,
    Permutation sorted
      (filter (fun m => Message.chat_id m =? 1) (messages three_messages))
    /\ StronglySorted desc sorted
    /\ status_code
         (response_of
            (GET_chat last_met 1 2 0
               (store_after
                  (POST_messages 1 (of_string "Fourth") three_messages 14))
               15))
       = 200
    /\ retrieved
         (content
            (response_of
               (GET_chat last_met 1 2 0
                  (store_after
                     (POST_messages 1 (of_string "Fourth") three_messages 14))
                  15)))
       = Message.mk (messages_id_seq three_messages + 1) 1
           (of_string "Fourth") 14
         :: firstn (Z.to_nat 2 - 1) sorted.
Proof.
  apply (create_message_then_get last_met 1 (of_string "Fourth")
           (of_string "Fourth") three_messages 14 15 2
           {| chats_id := 1; chats_title := of_string "Test Chat";
              chats_created_at := 10 |});
    try reflexivity; try lia.
  cbn. intros m [<-|[<-|[<-|[]]]]; cbn; lia.
Defined.

(** X10.  Creating a chat and deleting it again restores both tables: on
    the store the creation of X6 leaves, the delete of the key the creation
    handed out answers 204 and leaves [chats] and [messages] as they were
    before the creation; only the sequence has moved on. *)
Theorem create_chat_then_delete (raw t : pystr) (store : Database)
    (clock clock' : Z) :
  well_formed store = true ->
  ChatCreate.validate_title raw = inr t ->
  has_nul t = false ->
  chats_id_seq store < 2147483647 ->
  let id := chats_id_seq store + 1 in
  let created := store_after (POST_chats raw store clock) in
  let after := store_after (DELETE_chat id created clock') in
  chats created
  = chats store
    ++ [ {| chats_id := id; chats_title := t; chats_created_at := clock |} ]
  /\ status_code (response_of (DELETE_chat id created clock')) = 204
  /\ chats after = chats store
  /\ messages after = messages store
  /\ chats_id_seq after = id.
Proof.
  intros Hwf Hv Hn Hseq id created after. unfold after, created.
  rewrite (POST_chats_created raw t store clock Hwf Hv Hn Hseq).
  rewrite !store_after_eq.
  assert (Hs : int32 (chats_id_seq store + 1) = true).
  { apply next_int32; [|exact Hseq].
    now apply well_formed_inv in Hwf as (_ & _ & _ & _ & _ & _ & _ & H8 & _). }
  rewrite (DELETE_chat_found id (insert_chats t clock store) clock' _
             (select_chats_insert_chats store t clock Hwf Hs)).
  rewrite !store_after_eq, response_of_eq. cbn [status_code].
  split; [reflexivity|]. split; [reflexivity|].
  unfold delete_chats, insert_chats. cbn [chats messages chats_id_seq].
  repeat split.
  - rewrite filter_app. cbn [filter]. unfold chat_has_id at 2.
    cbn [chats_id]. fold id. rewrite Z.eqb_refl. fold id in Hs. rewrite Hs.
    cbn [negb andb]. rewrite app_nil_r.
    apply filter_id. intros r Hr. apply negb_true_iff.
    exact (filter_nil_inv _ _ _ (well_formed_next_chat store Hwf) r Hr).
  - apply filter_id. intros m Hm. apply negb_true_iff.
    exact (filter_nil_inv _ _ _ (well_formed_next_collection store Hwf) m Hm).
Qed.

Lemma create_chat_then_delete_witness :
  chats (store_after (POST_chats (of_string "Test Chat") three_messages 14))
  = chats three_messages
    ++ [ {| chats_id := 2; chats_title := of_string "Test Chat";
            chats_created_at := 14 |} ]
  /\ status_code
       (response_of
          (DELETE_chat 2
             (store_after
                (POST_chats (of_string "Test Chat") three_messages 14))
             15))
     = 204
  /\ chats
       (store_after
          (DELETE_chat 2
             (store_after
                (POST_chats (of_string "Test Chat") three_messages 14)) 15))
     = chats three_messages
  /\ messages
       (store_after
          (DELETE_chat 2
             (store_after
                (POST_chats (of_string "Test Chat") three_messages 14)) 15))
     = messages three_messages
  /\ chats_id_seq
       (store_after
          (DELETE_chat 2
             (store_after
                (POST_chats (of_string "Test Chat") three_messages 14)) 15))
     = 2.
Proof.
  apply (create_chat_then_delete (of_string "Test Chat")
           (of_string "Test Chat") three_messages 14 15); reflexivity.
Defined.

(** ** Deleting twice *)

(** X11.  Deleting is idempotent on the store: the same delete sent again
    leaves the store the first one left, for every store and chat id; and
    after a delete that answered 204 the second answers 404. *)
Theorem delete_chat_twice (chat_id : Z) (store : Database) (clock clock' : Z) :
  let once := DELETE_chat chat_id store clock in
  let twice := DELETE_chat chat_id (store_after once) clock' in
  store_after twice = store_after once
  /\ (status_code (response_of once) = 204 ->
      status_code (response_of twice) = 404).
Proof.
  intros once twice. unfold twice, once.
  destruct (int32 chat_id) eqn:Hr.
  - destruct (select_chats chat_id store) as [|r1 [|r2 rows]] eqn:E.
    + rewrite (DELETE_chat_absent chat_id store clock Hr E).
      rewrite !store_after_eq.
      rewrite (DELETE_chat_absent chat_id store clock' Hr E).
      split; [reflexivity|discriminate].
    + rewrite (DELETE_chat_found chat_id store clock r1 E).
      rewrite !store_after_eq.
      rewrite (DELETE_chat_absent chat_id (delete_chats chat_id store) clock'
                 Hr (delete_chats_select_chats chat_id store)).
      split; reflexivity.
    + rewrite (DELETE_chat_multiple chat_id store clock r1 r2 rows E).
      rewrite !store_after_eq.
      rewrite (DELETE_chat_multiple chat_id store clock' r1 r2 rows E).
      split; [reflexivity|discriminate].
  - rewrite (DELETE_chat_out_of_range chat_id store clock Hr).
    rewrite !store_after_eq.
    rewrite (DELETE_chat_out_of_range chat_id store clock' Hr).
    split; [reflexivity|discriminate].
Qed.

Lemma delete_chat_twice_witness :
  store_after (DELETE_chat 1 (store_after (DELETE_chat 1 three_messages 14)) 15)
  = store_after (DELETE_chat 1 three_messages 14)
  /\ status_code
       (response_of
          (DELETE_chat 1 (store_after (DELETE_chat 1 three_messages 14)) 15))
     = 404.
Proof.
  destruct (delete_chat_twice 1 three_messages 14 15) as [Hs Hc].
  split; [exact Hs|]. apply Hc. reflexivity.
Defined.

(** X16.  A delete removes the chat and its messages, or nothing: when the
    answer is 204 the chat id was the key of a row of [chats], the rows of
    [chats] left are those of every other key, the rows of [messages] left
    are those that reference another chat, in the order they had, and no row
    is selected by the chat id any more; with any other answer the store is
    as it was.  The sequences stay in both cases. *)
Theorem delete_chat_effect (chat_id : Z) (store : Database) (clock : Z) :
  let response := response_of (DELETE_chat chat_id store clock) in
  let after := store_after (DELETE_chat chat_id store clock) in
  ((status_code response = 204
    /\ (exists row, In row (chats store) /\ chats_id row = chat_id)
    /\ chats after
       = filter (fun r => negb (chats_id r =? chat_id)) (chats store)
    /\ messages after
       = filter (fun m => negb (Message.chat_id m =? chat_id))
           (messages store)
    /\ (forall r, In r (chats after) -> chats_id r <> chat_id)
    /\ (forall m, In m (messages after) -> Message.chat_id m <> chat_id))
   \/ (status_code response <> 204 /\ after = store))
  /\ chats_id_seq after = chats_id_seq store
  /\ messages_id_seq after = messages_id_seq store.
Proof.
  intros response after. unfold response, after.
  destruct (DELETE_chat_cases chat_id store clock)
    as [(row & Hrow & E) | [(_ & sent & E) | (_ & r & sent & E & Hc)]];
    rewrite E, ?store_after_eq, ?response_of_eq.
  - destruct (select_chats_row store chat_id row Hrow) as (Hr & Hid & Hin).
    split; [|split; reflexivity]. left.
    split; [reflexivity|]. split; [now exists row|].
    unfold delete_chats. cbn [chats messages].
    split; [|split; [reflexivity|split]].
    + apply filter_ext. intros r. unfold chat_has_id. now rewrite Hr.
    + intros r Hin' Heq. apply filter_In in Hin' as [_ H].
      unfold chat_has_id in H. rewrite Hr, Heq, Z.eqb_refl in H.
      discriminate.
    + intros m Hin' Heq. apply filter_In in Hin' as [_ H].
      unfold in_chat in H. rewrite Heq, Z.eqb_refl in H. discriminate.
  - split; [|split; reflexivity]. right. split; [discriminate|reflexivity].
  - split; [|split; reflexivity]. right. split; [|reflexivity].
    destruct Hc as [-> | ->]; discriminate.
Qed.

(** In [two_chats] the delete of chat 1 leaves chat 2 and its two
    messages. *)
Lemma delete_chat_effect_witness :
  chats (store_after (DELETE_chat 1 two_chats 30))
  = [ {| chats_id := 2; chats_title := of_string "Other";
         chats_created_at := 20 |} ]
  /\ messages (store_after (DELETE_chat 1 two_chats 30))
     = [ Message.mk 2 2 (of_string "Hello") 21;
         Message.mk 4 2 (of_string "World") 22 ].
Proof.
  destruct (delete_chat_effect 1 two_chats 30)
    as [[(_ & _ & Hc & Hm & _)|[H _]] _].
  - split; [exact Hc|exact Hm].
  - exfalso. apply H. reflexivity.
Defined.

(** ** What reading does to the store *)

Lemma outside_deleted (chat_id : Z) (page : list Message.t) (store : Database) :
  distinct (map Message.id (messages store)) = true ->
  messages
    (delete_all_messages
       (map Message.id (outside page (select_messages chat_id store))) store)
  = filter (fun m => negb (Message.chat_id m =? chat_id)
                     || existsb (fun p => Message.id p =? Message.id m) page)
      (messages store).
Proof.
  intros Hd. rewrite delete_all_messages_messages.
  apply filter_ext_in. intros m Hm.
  change (fun p => Message.id p =? Message.id m)
    with (message_has_id (Message.id m)).
  change (Message.chat_id m =? chat_id) with (in_chat chat_id m).
  set (ids := map Message.id (outside page (select_messages chat_id store))).
  destruct (existsb (Z.eqb (Message.id m)) ids) eqn:Ex.
  - apply existsb_exists in Ex as (i & Hi & Ei).
    apply Z.eqb_eq in Ei. subst i.
    apply in_map_iff in Hi as (m' & Eid & Hm').
    apply filter_In in Hm' as [Hm' Hout].
    apply filter_In in Hm' as [Hm' Hin].
    assert (m' = m) by
      (exact (distinct_key_eq _ Message.id (messages store) m' m Hd Hm' Hm Eid)).
    subst m'. rewrite Hin.
    apply negb_true_iff in Hout. now rewrite Hout.
  - destruct (in_chat chat_id m) eqn:Hin; [|reflexivity].
    destruct (existsb (message_has_id (Message.id m)) page) eqn:Hp;
      [reflexivity|].
    exfalso.
    assert (Hi : In (Message.id m) ids).
    { apply in_map. apply filter_In. split.
      - apply filter_In. now split.
      - now rewrite Hp. }
    assert (Ht : existsb (Z.eqb (Message.id m)) ids = true).
    { apply existsb_exists. exists (Message.id m).
      split; [exact Hi|apply Z.eqb_refl]. }
    congruence.
Qed.

(** X12.  A [GET] of an existing chat on a well-formed store, with [limit]
    in range and [offset] a non-negative 64-bit integer, answers with a
    page of the chat's messages in descending order of creation time (which
    of two messages of the same time comes first is the engine's choice),
    and leaves in [messages] exactly the rows of the other chats and the
    rows on the page: every other message of the chat is deleted at the
    commit.  [chats] is as before. *)
Theorem get_chat_keeps_page (tie : Tie) (chat_id limit offset : Z)
    (store : Database) (clock : Z) (row : chats_row) :
  well_formed store = true ->
  select_chats chat_id store = [row] ->
  1 <= limit <= 100 -> 0 <= offset <= 9223372036854775807 ->
  let collection :=
    filter (fun m => Message.chat_id m =? chat_id) (messages store) in
  let N := Z.of_nat (List.length collection) in
  let after := store_after (GET_chat tie chat_id limit offset store clock) in
  exists page skipped rest : list Message.t,
    response_of (GET_chat tie chat_id limit offset store clock)
    = {| status_code := 200;
         content :=
           ChatWithMessages
             (Chat.mk chat_id (chats_title row) (chats_created_at row)
                page) |}
    /\ Z.of_nat (List.length skipped) = Z.min offset N
    /\ Z.of_nat (List.length page) = Z.min limit (Z.max (N - offset) 0)
    /\ Permutation (skipped ++ page ++ rest) collection
    /\ StronglySorted desc (skipped ++ page ++ rest)
    /\ messages after
       = filter (fun m => negb (Message.chat_id m =? chat_id)
                          || existsb (fun p => Message.id p =? Message.id m)
                               page)
           (messages store)
    /\ chats after = chats store.
Proof.
  intros Hwf Hrow Hl Ho collection N after. unfold after.
  destruct (select_chats_row _ _ _ Hrow) as (_ & Hid & _).
  set (sorted := order_by_created_at_desc tie collection).
  assert (HN : Z.of_nat (List.length sorted) = N).
  { unfold N, sorted. f_equal. apply Permutation_length, order_by_perm. }
  exists (limit_offset limit offset sorted), (firstn (Z.to_nat offset) sorted),
    (skipn (Z.to_nat limit) (skipn (Z.to_nat offset) sorted)).
  rewrite (GET_chat_outcome tie store clock chat_id limit offset row Hrow Hl Ho).
  cbn zeta. rewrite store_after_eq, response_of_eq.
  change (select_messages chat_id store) with collection. fold sorted.
  split; [unfold Chat_of; now rewrite Hid|].
  split; [rewrite length_firstn; lia|].
  split; [rewrite limit_offset_length, HN; lia|].
  rewrite <- (limit_offset_split limit offset sorted).
  split; [apply order_by_perm|]. split; [apply order_by_sorted|].
  split; [|apply delete_all_messages_frame].
  apply outside_deleted.
  now apply well_formed_inv in Hwf as (_ & Hd & _).
Qed.

Lemma get_chat_keeps_page_witness :
  exists page skipped rest : list Message.t,
    response_of (GET_chat last_met 1 1 1 three_messages 14)
    = {| status_code := 200;
         content :=
           ChatWithMessages (Chat.mk 1 (of_string "Test Chat") 10 page) |}
    /\ Z.of_nat (List.length skipped) = 1
    /\ Z.of_nat (List.length page) = 1
    /\ Permutation (skipped ++ page ++ rest)
         (filter (fun m => Message.chat_id m =? 1) (messages three_messages))
    /\ StronglySorted desc (skipped ++ page ++ rest)
    /\ messages (store_after (GET_chat last_met 1 1 1 three_messages 14))
       = filter (fun m => negb (Message.chat_id m =? 1)
                          || existsb (fun p => Message.id p =? Message.id m)
                               page)
           (messages three_messages)
    /\ chats (store_after (GET_chat last_met 1 1 1 three_messages 14))
       = chats three_messages.
Proof.
  apply (get_chat_keeps_page last_met 1 1 1 three_messages 14
           {| chats_id := 1; chats_title := of_string "Test Chat";
              chats_created_at := 10 |});
    try reflexivity; lia.
Defined.

(** X13.  A [GET] whose page holds all the messages of the chat changes
    nothing: for a chat that exists and has at most [limit] messages,
    [offset = 0] returns all of them in descending order of creation time
    (which of two messages of the same time comes first is the engine's
    choice), and the store after the request is the store before it. *)
Theorem get_chat_whole_collection (tie : Tie) (chat_id limit : Z)
    (store : Database) (clock : Z) (row : chats_row) :
  let collection :=
    filter (fun m => Message.chat_id m =? chat_id) (messages store) in
  select_chats chat_id store = [row] ->
  1 <= limit <= 100 ->
  Z.of_nat (List.length collection) <= limit ->
  exists page : list Message.t,
    Permutation page collection
    /\ StronglySorted desc page
    /\ response_of (GET_chat tie chat_id limit 0 store clock)
       = {| status_code := 200;
            content :=
              ChatWithMessages
                (Chat.mk chat_id (chats_title row) (chats_created_at row)
                   page) |}
    /\ store_after (GET_chat tie chat_id limit 0 store clock) = store.
Proof.
  intros collection Hrow Hl HN.
  destruct (select_chats_row _ _ _ Hrow) as (_ & Hid & _).
  exists (order_by_created_at_desc tie collection).
  split; [apply order_by_perm|]. split; [apply order_by_sorted|].
  rewrite (GET_chat_outcome tie store clock chat_id limit 0 row Hrow Hl)
    by lia.
  cbn zeta. rewrite store_after_eq, response_of_eq.
  change (select_messages chat_id store) with collection.
  assert (Hpage : limit_offset limit 0 (order_by_created_at_desc tie collection)
                  = order_by_created_at_desc tie collection).
  { unfold limit_offset. cbn [Z.to_nat skipn]. apply firstn_all2.
    rewrite (Permutation_length (order_by_perm tie collection)). lia. }
  rewrite Hpage.
  assert (Hout : outside (order_by_created_at_desc tie collection) collection
                 = []).
  { apply filter_none. intros m Hm. apply negb_false_iff.
    apply existsb_exists. exists m. split.
    - apply (Permutation_in _
               (Permutation_sym (order_by_perm tie collection))).
      exact Hm.
    - apply Z.eqb_refl. }
  rewrite Hout. unfold Chat_of. rewrite Hid. split; reflexivity.
Qed.

Lemma get_chat_whole_collection_witness :
  exists page : list Message.t,
    Permutation page
      (filter (fun m => Message.chat_id m =? 1) (messages three_messages))
    /\ StronglySorted desc page
    /\ response_of (GET_chat first_met 1 20 0 three_messages 14)
       = {| status_code := 200;
            content :=
              ChatWithMessages (Chat.mk 1 (of_string "Test Chat") 10 page) |}
    /\ store_after (GET_chat first_met 1 20 0 three_messages 14)
       = three_messages.
Proof.
  apply (get_chat_whole_collection first_met 1 20 three_messages 14
           {| chats_id := 1; chats_title := of_string "Test Chat";
              chats_created_at := 10 |});
    [reflexivity | lia | cbn; lia].
Defined.

(** X14.  Whatever the store and the parameters, a [GET] inserts nothing
    and touches neither [chats] nor the sequences: the rows of [messages]
    after the request are rows that were there before. *)
Theorem get_chat_frame (tie : Tie) (chat_id limit offset : Z)
    (store : Database) (clock : Z) :
  let after := store_after (GET_chat tie chat_id limit offset store clock) in
  chats after = chats store
  /\ chats_id_seq after = chats_id_seq store
  /\ messages_id_seq after = messages_id_seq store
  /\ incl (messages after) (messages store).
Proof.
  intros after. unfold after.
  destruct (GET_chat_store tie chat_id limit offset store clock)
    as [->|(ids & ->)].
  - repeat split. apply incl_refl.
  - destruct (delete_all_messages_frame ids store) as (H1 & H2 & H3).
    repeat split; trivial.
    rewrite delete_all_messages_messages. intros m Hm.
    now apply filter_In in Hm.
Qed.

(** ** The stores the interface produces *)

(** X15.  Every store the interface can produce from the empty store, by
    any requests at any times, whatever order the engine gives to messages
    of the same time, is well-formed. *)
Theorem serve_all_well_formed (requests : list (Tie * Request * Z)) :
  well_formed (serve_all requests empty_store) = true.
Proof.
  unfold serve_all.
  assert (H : well_formed empty_store = true) by reflexivity.
  revert H. generalize empty_store.
  induction requests as [|[[tie req] clock] requests IH]; intros d H; simpl;
    [exact H|].
  apply IH. exact (handle_cases_store tie req d clock H).
Qed.

(** ** Requests that fail *)

(** A served request answers with the status of its route, or it was rolled
    back and the rows are those it found. *)
Lemma serve_rows (status : Z) (endpoint : M Content) (store : Database)
    (clock : Z) :
  status_code (response_of (serve status endpoint store clock)) = status
  \/ (chats (store_after (serve status endpoint store clock)) = chats store
      /\ messages (store_after (serve status endpoint store clock))
         = messages store).
Proof.
  unfold serve, get_db.
  destruct (endpoint (fresh store clock)) as [[e|body] s1].
  - right. split; reflexivity.
  - destruct (commit s1) as [[e|u] s2].
    + right. split; reflexivity.
    + now left.
Qed.

(** X17.  A request that is not answered 200, 201 or 204 changes no row:
    whatever the store and the request, after a validation error, a
    not-found or an internal error both tables are as they were. *)
Theorem failed_request_changes_nothing (tie : Tie) (req : Request)
    (store : Database) (clock : Z) :
  let code := status_code (response_of (handle tie req store clock)) in
  code <> 200 -> code <> 201 -> code <> 204 ->
  chats (store_after (handle tie req store clock)) = chats store
  /\ messages (store_after (handle tie req store clock)) = messages store.
Proof.
  cbv zeta.
  destruct req as [raw | cid raw | cid limit offset | cid]; cbn [handle];
    intros H200 H201 H204.
  - unfold POST_chats in *.
    destruct (ChatCreate.model_validate raw); [now split|].
    now destruct (serve_rows 201 (routers.create_chat t) store clock).
  - unfold POST_messages in *.
    destruct (MessageCreate.model_validate raw); [now split|].
    now destruct (serve_rows 201 (routers.create_message cid t) store clock).
  - unfold GET_chat in *.
    destruct (routers.get_chat_params _ _); [|now split].
    now destruct (serve_rows 200
                    (routers.get_chat tie cid (default_to 20 limit)
                       (default_to 0 offset)) store clock).
  - unfold DELETE_chat in *.
    now destruct (serve_rows 204 (routers.delete_chat cid) store clock).
Qed.

Lemma failed_request_changes_nothing_witness :
  chats (store_after
           (handle first_met (post_messages 99999 (of_string "Test message"))
              three_messages 14))
  = chats three_messages
  /\ messages (store_after
                 (handle first_met
                    (post_messages 99999 (of_string "Test message"))
                    three_messages 14))
     = messages three_messages.
Proof.
  apply (failed_request_changes_nothing first_met
           (post_messages 99999 (of_string "Test message")) three_messages 14);
    vm_compute; discriminate.
Defined.

(** ** Chats do not see each other's messages *)

Lemma GET_chat_response (tie : Tie) (chat_id limit offset : Z)
    (d d' : Database) (clock clock' : Z) :
  well_formed d = true ->
  chats d' = chats d ->
  select_messages chat_id d' = select_messages chat_id d ->
  response_of (GET_chat tie chat_id limit offset d' clock')
  = response_of (GET_chat tie chat_id limit offset d clock).
Proof.
  intros Hwf Hc Hm.
  assert (Hs : select_chats chat_id d' = select_chats chat_id d)
    by (unfold select_chats; now rewrite Hc).
  destruct (routers.get_chat_params limit offset) as [|e errors] eqn:E.
  - apply get_chat_params_nil in E as [Hl Ho].
    destruct (int32 chat_id) eqn:Hr.
    + destruct (well_formed_select_chats d chat_id Hwf) as [H|(row & H)].
      * rewrite (GET_chat_absent tie chat_id limit offset d clock Hr H Hl Ho).
        rewrite <- Hs in H.
        now rewrite (GET_chat_absent tie chat_id limit offset d' clock' Hr H
                       Hl Ho).
      * destruct (Z_le_gt_dec offset 9223372036854775807) as [Hb|Hb].
        -- rewrite (GET_chat_outcome tie d clock chat_id limit offset row H Hl
                      (conj Ho Hb)).
           rewrite <- Hs in H.
           rewrite (GET_chat_outcome tie d' clock' chat_id limit offset row H
                      Hl (conj Ho Hb)).
           cbn zeta. rewrite !response_of_eq. now rewrite Hm.
        -- rewrite (GET_chat_refused tie chat_id limit offset d clock row H Hl)
             by lia.
           rewrite <- Hs in H.
           now rewrite (GET_chat_refused tie chat_id limit offset d' clock' row
                          H Hl) by lia.
    + rewrite (GET_chat_id_out_of_range tie chat_id limit offset d clock Hr Hl
                 Ho).
      now rewrite (GET_chat_id_out_of_range tie chat_id limit offset d' clock'
                     Hr Hl Ho).
  - rewrite !GET_chat_rejected by (rewrite E; discriminate).
    reflexivity.
Qed.

(** X18.  Posting to one chat does not change what a [GET] of another chat
    answers: on a well-formed store, after any text is posted to any chat
    id, the response for every other chat id, with any parameters, is the
    one the store gave before. *)
Theorem post_message_other_chat (tie : Tie) (chat_id other : Z) (raw : pystr)
    (store : Database) (clock clock' limit offset : Z) :
  well_formed store = true ->
  other <> chat_id ->
  response_of
    (GET_chat tie other limit offset
       (store_after (POST_messages chat_id raw store clock)) clock')
  = response_of (GET_chat tie other limit offset store clock').
Proof.
  intros Hwf Hneq.
  destruct (POST_messages_store chat_id raw store clock Hwf)
    as [->|(t & row & _ & _ & _ & _ & _ & ->)]; [reflexivity|].
  apply GET_chat_response; [exact Hwf|reflexivity|].
  unfold select_messages, insert_messages. cbn [messages].
  rewrite filter_app. cbn [filter]. unfold in_chat at 2.
  cbn [Message.chat_id].
  destruct (Z.eqb_spec chat_id other); [congruence|].
  apply app_nil_r.
Qed.

(** In [two_chats], after "Fourth" is posted to chat 1 and stored, chat 2
    answers with its two messages as before. *)
Lemma post_message_other_chat_witness :
  response_of
    (GET_chat first_met 2 20 0
       (store_after (POST_messages 1 (of_string "Fourth") two_chats 14)) 15)
  = response_of (GET_chat first_met 2 20 0 two_chats 15)
  /\ messages (store_after (POST_messages 1 (of_string "Fourth") two_chats 14))
     = messages two_chats ++ [Message.mk 5 1 (of_string "Fourth") 14]
  /\ response_of (GET_chat first_met 2 20 0 two_chats 15)
     = {| status_code := 200;
          content :=
            ChatWithMessages
              (Chat.mk 2 (of_string "Other") 20
                 [Message.mk 4 2 (of_string "World") 22;
                  Message.mk 2 2 (of_string "Hello") 21]) |}.
Proof.
  split; [|split; reflexivity].
  apply (post_message_other_chat first_met 1 2 (of_string "Fourth") two_chats
           14 15 20 0); [reflexivity|lia].
Defined.

(** ** The orders an engine may choose *)

Lemma distinct_head (x : Message.t) (l : list Message.t) (a : Message.t) :
  distinct (map Message.id (x :: l)) = true ->
  In a l -> Message.id x <> Message.id a.
Proof.
  intros Hd Ha E.
  assert (a = x).
  { apply (distinct_key_eq _ Message.id (x :: l) a x Hd);
      [now right|now left|congruence]. }
  subst a. simpl in Hd. apply andb_prop in Hd as [Hd _].
  apply negb_true_iff in Hd.
  assert (Ht : existsb (Z.eqb (Message.id x)) (map Message.id l) = true).
  { apply existsb_exists. exists (Message.id x).
    split; [now apply in_map|apply Z.eqb_refl]. }
  congruence.
Qed.

Lemma position_head (x : Message.t) (l : list Message.t) :
  position (Message.id x) (x :: l) = 0%nat.
Proof. simpl. now rewrite Z.eqb_refl. Qed.

Lemma position_tail (x : Message.t) (l : list Message.t) (a : Message.t) :
  distinct (map Message.id (x :: l)) = true -> In a l ->
  position (Message.id a) (x :: l) = S (position (Message.id a) l).
Proof.
  intros Hd Ha. simpl.
  destruct (Z.eqb_spec (Message.id x) (Message.id a)) as [E|E];
    [|reflexivity].
  now apply (distinct_head x l a Hd Ha) in E.
Qed.

Lemma distinct_tail (x : Z) (l : list Z) :
  distinct (x :: l) = true -> distinct l = true.
Proof. simpl. intros H. now apply andb_prop in H as [_ H]. Qed.

(** Rows at the same place of a listing with distinct keys are the same
    row. *)
Lemma position_eq (listing : list Message.t) (a b : Message.t) :
  distinct (map Message.id listing) = true ->
  In a listing -> In b listing ->
  position (Message.id a) listing = position (Message.id b) listing ->
  a = b.
Proof.
  induction listing as [|x l IH]; [intros _ []|].
  intros Hd Ha Hb E.
  destruct Ha as [<-|Ha], Hb as [<-|Hb]; trivial.
  - rewrite position_head, (position_tail _ _ _ Hd Hb) in E. discriminate.
  - rewrite position_head, (position_tail _ _ _ Hd Ha) in E. discriminate.
  - rewrite (position_tail _ _ _ Hd Ha), (position_tail _ _ _ Hd Hb) in E.
    injection E as E.
    exact (IH (distinct_tail _ _ Hd) Ha Hb E).
Qed.

(** In a listing in descending order, an earlier place is a time that is
    not earlier. *)
Lemma position_desc (listing : list Message.t) (a b : Message.t) :
  distinct (map Message.id listing) = true ->
  StronglySorted desc listing ->
  In a listing -> In b listing ->
  (position (Message.id a) listing < position (Message.id b) listing)%nat ->
  desc a b.
Proof.
  induction listing as [|x l IH]; [intros _ _ []|].
  intros Hd Hs Ha Hb Hlt.
  apply StronglySorted_inv in Hs as [Hs Hx].
  destruct Ha as [<-|Ha], Hb as [<-|Hb].
  - lia.
  - rewrite Forall_forall in Hx. now apply Hx.
  - rewrite position_head in Hlt. lia.
  - rewrite (position_tail _ _ _ Hd Ha), (position_tail _ _ _ Hd Hb) in Hlt.
    apply (IH (distinct_tail _ _ Hd) Hs Ha Hb). lia.
Qed.

(** The engine that follows a listing in descending order goes by the
    places of the listing alone. *)
Lemma before_follows (listing : list Message.t) (a b : Message.t) :
  distinct (map Message.id listing) = true ->
  StronglySorted desc listing ->
  In a listing -> In b listing ->
  before (follows listing) a b
  = (position (Message.id a) listing <? position (Message.id b) listing)%nat.
Proof.
  intros Hd Hs Ha Hb. unfold before, follows.
  destruct (Nat.ltb_spec (position (Message.id a) listing)
              (position (Message.id b) listing)) as [Hlt|Hge].
  - pose proof (position_desc listing a b Hd Hs Ha Hb Hlt) as H.
    unfold desc in H. rewrite andb_true_r.
    destruct (Z.ltb_spec (Message.created_at b) (Message.created_at a));
      [reflexivity|].
    cbn [orb]. apply Z.eqb_eq. lia.
  - rewrite andb_false_r, orb_false_r. apply Z.ltb_ge.
    destruct (Nat.eq_dec (position (Message.id a) listing)
                (position (Message.id b) listing)) as [E|E].
    + rewrite (position_eq listing a b Hd Ha Hb E). lia.
    + apply (position_desc listing b a Hd Hs Hb Ha). lia.
Qed.

Section Places.

Variable listing : list Message.t.
Hypothesis listing_keys : distinct (map Message.id listing) = true.
Hypothesis listing_desc : StronglySorted desc listing.

Lemma insert_follows (m : Message.t) (l : list Message.t) :
  In m listing -> incl l listing -> ~ In m l ->
  StronglySorted
    (fun a b => (position (Message.id a) listing
                 < position (Message.id b) listing)%nat) l ->
  StronglySorted
    (fun a b => (position (Message.id a) listing
                 < position (Message.id b) listing)%nat)
    (insert_desc (follows listing) m l).
Proof.
  intros Hm. induction l as [|x l IH]; intros Hin Hno Hs; simpl.
  - repeat constructor.
  - assert (Hx : In x listing) by (apply Hin; now left).
    rewrite (before_follows listing m x listing_keys listing_desc Hm Hx).
    apply StronglySorted_inv in Hs as [Hs Hf].
    destruct (Nat.ltb_spec (position (Message.id m) listing)
                (position (Message.id x) listing)) as [Hlt|Hge].
    + constructor; [now constructor|].
      constructor; [exact Hlt|].
      eapply Forall_impl; [|exact Hf]. cbv beta. intros a Ha. lia.
    + constructor.
      * apply IH; [|intros H; apply Hno; now right|exact Hs].
        intros a Ha. apply Hin. now right.
      * apply insert_desc_Forall; [|exact Hf].
        destruct (Nat.eq_dec (position (Message.id x) listing)
                    (position (Message.id m) listing)) as [E|E]; [|lia].
        exfalso. apply Hno. left.
        exact (position_eq listing x m listing_keys Hx Hm E).
Qed.

Lemma order_by_follows (l : list Message.t) :
  NoDup l -> incl l listing ->
  StronglySorted
    (fun a b => (position (Message.id a) listing
                 < position (Message.id b) listing)%nat)
    (order_by_created_at_desc (follows listing) l).
Proof.
  induction l as [|m l IH]; intros Hn Hin; simpl; [constructor|].
  apply NoDup_cons_iff in Hn as [Hno Hn].
  apply insert_follows.
  - apply Hin. now left.
  - intros a Ha. apply Hin. right.
    exact (Permutation_in _ (order_by_perm (follows listing) l) Ha).
  - intros H. apply Hno.
    exact (Permutation_in _ (order_by_perm (follows listing) l) H).
  - apply IH; [exact Hn|]. intros a Ha. apply Hin. now right.
Qed.

End Places.

Lemma StronglySorted_within {A : Type} (R1 R2 : A -> A -> Prop) (l : list A) :
  (forall a b, In a l -> In b l -> R1 a b -> R2 a b) ->
  StronglySorted R1 l -> StronglySorted R2 l.
Proof.
  induction l as [|x l IH]; intros H Hs; [constructor|].
  apply StronglySorted_inv in Hs as [Hs Hf]. constructor.
  - apply IH; [|exact Hs]. intros a b Ha Hb. apply H; now right.
  - rewrite Forall_forall in *. intros a Ha.
    apply H; [now left|now right|now apply Hf].
Qed.

(** A listing with distinct keys is in the order of its own places. *)
Lemma listing_places (listing : list Message.t) :
  distinct (map Message.id listing) = true ->
  StronglySorted
    (fun a b => (position (Message.id a) listing
                 < position (Message.id b) listing)%nat) listing.
Proof.
  induction listing as [|x l IH]; intros Hd; [constructor|].
  constructor.
  - apply (StronglySorted_within
             (fun a b => (position (Message.id a) l
                          < position (Message.id b) l)%nat)).
    + intros a b Ha Hb Hlt.
      rewrite (position_tail _ _ _ Hd Ha), (position_tail _ _ _ Hd Hb). lia.
    + apply IH. exact (distinct_tail _ _ Hd).
  - rewrite Forall_forall. intros a Ha.
    rewrite position_head, (position_tail _ _ _ Hd Ha). lia.
Qed.

(** Two listings of the same rows in the order of the same places are one
    listing. *)
Lemma places_unique {A : Type} (place : A -> nat) (l1 l2 : list A) :
  StronglySorted (fun a b => (place a < place b)%nat) l1 ->
  StronglySorted (fun a b => (place a < place b)%nat) l2 ->
  Permutation l1 l2 -> l1 = l2.
Proof.
  revert l2. induction l1 as [|a l1 IH]; intros l2 H1 H2 Hp.
  - apply Permutation_nil in Hp. now subst.
  - destruct l2 as [|b l2];
      [apply Permutation_sym, Permutation_nil in Hp; discriminate|].
    apply StronglySorted_inv in H1 as [H1 Hf1].
    apply StronglySorted_inv in H2 as [H2 Hf2].
    rewrite Forall_forall in Hf1, Hf2.
    assert (E : a = b).
    { pose proof (Permutation_in a Hp (or_introl eq_refl)) as Ha.
      pose proof (Permutation_in b (Permutation_sym Hp) (or_introl eq_refl))
        as Hb.
      destruct Ha as [Ha|Ha]; [now symmetry|].
      destruct Hb as [Hb|Hb]; [exact Hb|].
      apply Hf2 in Ha. apply Hf1 in Hb. lia. }
    subst b. f_equal. apply IH; trivial.
    exact (Permutation_cons_inv Hp).
Qed.

Lemma distinct_NoDup {A : Type} (key : A -> Z) (l : list A) :
  distinct (map key l) = true -> NoDup l.
Proof.
  induction l as [|x l IH]; intros Hd; [constructor|].
  simpl in Hd. apply andb_prop in Hd as [Hx Hd].
  constructor; [|now apply IH].
  intros Hin. apply negb_true_iff in Hx.
  assert (Ht : existsb (Z.eqb (key x)) (map key l) = true).
  { apply existsb_exists. exists (key x).
    split; [now apply in_map|apply Z.eqb_refl]. }
  congruence.
Qed.

(** Every listing of rows with distinct keys in descending order of
    creation time is what [ORDER BY created_at DESC] returns for some
    engine: the one that follows the listing. *)
Lemma order_by_any_listing (l listing : list Message.t) :
  distinct (map Message.id listing) = true ->
  Permutation listing l ->
  StronglySorted desc listing ->
  order_by_created_at_desc (follows listing) l = listing.
Proof.
  intros Hd Hp Hs.
  apply (places_unique (fun a => position (Message.id a) listing)).
  - apply order_by_follows; trivial.
    + apply (Permutation_NoDup Hp). exact (distinct_NoDup Message.id _ Hd).
    + intros a Ha. exact (Permutation_in _ (Permutation_sym Hp) Ha).
  - now apply listing_places.
  - etransitivity; [apply order_by_perm|]. now symmetry.
Qed.

(** Two messages of one chat with the same creation time: one engine
    returns them in table order, another the other way round, and a page of
    one message holds the one or the other. *)
Lemma equal_times_either_order :
  let m1 := Message.mk 1 1 (of_string "First") 11 in
  let m2 := Message.mk 2 1 (of_string "Second") 11 in
  order_by_created_at_desc first_met [m1; m2] = [m1; m2]
  /\ order_by_created_at_desc last_met [m1; m2] = [m2; m1]
  /\ order_by_created_at_desc (follows [m2; m1]) [m1; m2] = [m2; m1]
  /\ limit_offset 1 0 (order_by_created_at_desc first_met [m1; m2]) = [m1]
  /\ limit_offset 1 0 (order_by_created_at_desc last_met [m1; m2]) = [m2].
Proof. repeat split. Qed.
